(** * Manim scene validator: a shallow embedding of [validate_scenes.py]

    The validator replaces a scene's [play] and [wait], drives every
    animation to its final state, and after each [play] scans the bounding
    boxes of the scene's top-level mobjects for two defects: boxes outside
    the frame (OOB) and pairs of boxes that overlap too much.

    Modelling choices.
    - Python floats are exact rationals ([Q]): finite values, no rounding,
      no NaN.  Decimal literals are the rationals they denote
      ([1e-5] is [1 # 100000], [0.6] is [6 # 10]).
    - A mobject is a tree value carrying the identity [mid] of the Python
      object; [sub is mob] is equality of identities.
    - The manim framework is an environment: the frame constants and
      [Scene.add] come from the class [Manim]; an animation carries its
      lifecycle stages as world transformers that may raise; the body of
      [construct] is a list of statements.
    - The two [_reported_*] sets are [gset]s.
    - Of the text written to the console only the report of the tracker
      is part of the model ([Report]), as the data it prints. *)

From Stdlib Require Import QArith Qminmax Qround Qabs Lqa ZArith String Ascii DecimalString.
From Stdlib Require OrderedTypeEx.
From stdpp Require Import gmap strings list sorting.

Open Scope Q_scope.

(** ** Numbers *)

(** [x < y] on floats, as a boolean. *)
Definition Qltb (x y : Q) : bool :=
  match Qcompare x y with
  | Lt => true
  | _ => false
  end.

Infix "<?" := Qltb : Q_scope.

(** Rounding of a non-negative rational to the nearest integer, ties to
    even: the rounding of Python's fixed-point float formatting. *)
Definition round_half_even (q : Q) : Z :=
  let f := Qfloor q in
  match Qcompare (q - inject_Z f) (1 # 2) with
  | Lt => f
  | Gt => (f + 1)%Z
  | Eq => if Z.even f then f else (f + 1)%Z
  end.

Definition decimal (n : Z) : string :=
  NilZero.string_of_uint (N.to_uint (Z.to_N n)).

Fixpoint zeros (n : nat) : string :=
  match n with
  | O => EmptyString
  | S k => String "0" (zeros k)
  end.

(** [pad d s]: [s] padded on the left with zeros to [d] characters. *)
Definition pad (d : nat) (s : string) : string :=
  (zeros (d - String.length s) ++ s)%string.

(** [format_fixed d x] is [f"{x:.<d>f}"]: an optional minus sign, the
    integer part, and [d] decimals when [d] is positive. *)
Definition format_fixed (d : nat) (x : Q) : string :=
  let scale := (10 ^ Z.of_nat d)%Z in
  let n := round_half_even (Qabs x * inject_Z scale) in
  let sign := if x <? 0 then "-"%string else EmptyString in
  let frac :=
    match d with
    | O => EmptyString
    | _ => ("." ++ pad d (decimal (n mod scale)))%string
    end in
  (sign ++ decimal (n / scale) ++ frac)%string.

(** [f"{x:.0%}"]: the value times one hundred, no decimals, a percent sign. *)
Definition format_percent (x : Q) : string :=
  (format_fixed 0 (x * 100) ++ "%")%string.

(** ** Mobjects *)

(** What [isinstance] tells [mob_label] about the class of a mobject. *)
Inductive MobKind : Type :=
  | KText     (* isinstance(mob, (Text, MarkupText)) *)
  | KVGroup   (* isinstance(mob, VGroup) *)
  | KOther.

Abbreviation ObjId := nat (only parsing).

#[local] Unset Elimination Schemes.

(** A mobject as the validator reads it.  [corner_UL] and [corner_DR] are
    the results of [get_corner(UL)] and [get_corner(DR)]; [None] stands for
    a query that raises. *)
Inductive Mobject : Type :=
  mkMobject {
    mid : ObjId;
    cls_name : string;                (* type(mob).__name__ *)
    kind : MobKind;
    text : string;                    (* the [text] attribute *)
    has_points : bool;
    corner_UL : option (Q * Q);
    corner_DR : option (Q * Q);
    submobjects : list Mobject
  }.

#[local] Set Elimination Schemes.

(** Induction on a mobject with the hypothesis for all its children. *)
Fixpoint Mobject_ind_sub (P : Mobject -> Prop)
    (step : forall mob, Forall P (submobjects mob) -> P mob)
    (mob : Mobject) : P mob :=
  step mob
    (match mob return Forall P (submobjects mob) with
     | mkMobject _ _ _ _ _ _ _ subs =>
         (fix all (subs : list Mobject) : Forall P subs :=
            match subs with
            | [] => List.Forall_nil P
            | sub :: rest =>
                @List.Forall_cons _ P sub rest (Mobject_ind_sub P step sub) (all rest)
            end) subs
     end).

Definition BBox : Type := (Q * Q * Q * Q)%type.   (* (left, right, bottom, top) *)

(** ** The Python world of one scene *)

(** [store] gives the current state of every mobject, in the scene or
    not; [mobjects] is [scene.mobjects], a list of references. *)
Record World : Type := mkWorld {
  store : ObjId -> Mobject;
  mobjects : list ObjId
}.

(** The mobjects of the scene in their current state. *)
Definition scene_mobjects (scene : World) : list Mobject :=
  map (store scene) (mobjects scene).

(** ** The framework *)

(** [config.frame_width] and [config.frame_height], as the module reads
    them at import time, and [scene.add(mob)] of manim's [Scene]. *)
Class Manim : Type := {
  frame_width : Q;
  frame_height : Q;
  scene_add : World -> ObjId -> World
}.

Section Geometry.

Context {manim : Manim}.

Definition FRAME_W : Q := frame_width.
Definition FRAME_H : Q := frame_height.
Definition HALF_W : Q := FRAME_W / 2.
Definition HALF_H : Q := FRAME_H / 2.
Definition EDGE_TOL : Q := 5 # 100.

Definition get_bbox (mob : Mobject) : option BBox :=
  if negb (has_points mob) && bool_decide (submobjects mob = [])
  then None
  else
    match corner_UL mob, corner_DR mob with
    | Some ul, Some dr =>
        let l := fst ul in
        let r := fst dr in
        let b := snd dr in
        let t := snd ul in
        if (r - l <? 1 # 100000) || (t - b <? 1 # 100000)
        then None
        else Some (l, r, b, t)
    | _, _ => None
    end.

Definition bbox_area (bbox : BBox) : Q :=
  let '(l, r, b, t) := bbox in
  Qmax 0 (r - l) * Qmax 0 (t - b).

Definition bbox_intersection (b1 b2 : BBox) : option BBox :=
  let '(l1, r1, bo1, t1) := b1 in
  let '(l2, r2, bo2, t2) := b2 in
  let l := Qmax l1 l2 in
  let r := Qmin r1 r2 in
  let b := Qmax bo1 bo2 in
  let t := Qmin t1 t2 in
  if (l <? r) && (b <? t) then Some (l, r, b, t) else None.

Definition overlap_ratio (b1 b2 : BBox) : Q :=
  match bbox_intersection b1 b2 with
  | None => 0
  | Some inter =>
      let inter_area := bbox_area inter in
      let min_area := Qmin (bbox_area b1) (bbox_area b2) in
      if min_area <? 1 # 1000000 then 0 else inter_area / min_area
  end.

Definition is_oob (bbox : BBox) : list string :=
  let '(l, r, b, t) := bbox in
  let v1 :=
    if l <? - HALF_W - EDGE_TOL
    then ["LEFT (x=" ++ format_fixed 2 l ++ " < " ++ format_fixed 2 (- HALF_W) ++ ")"]%string
    else [] in
  let v2 :=
    if HALF_W + EDGE_TOL <? r
    then ["RIGHT (x=" ++ format_fixed 2 r ++ " > " ++ format_fixed 2 HALF_W ++ ")"]%string
    else [] in
  let v3 :=
    if b <? - HALF_H - EDGE_TOL
    then ["BOTTOM (y=" ++ format_fixed 2 b ++ " < " ++ format_fixed 2 (- HALF_H) ++ ")"]%string
    else [] in
  let v4 :=
    if HALF_H + EDGE_TOL <? t
    then ["TOP (y=" ++ format_fixed 2 t ++ " > " ++ format_fixed 2 HALF_H ++ ")"]%string
    else [] in
  v1 ++ v2 ++ v3 ++ v4.

End Geometry.

(** ** Labels *)

Definition dquote : string := String (ascii_of_nat 34) EmptyString.

Definition is_text (mob : Mobject) : bool :=
  match kind mob with
  | KText => true
  | _ => false
  end.

(** The first text child among [subs], as the loop over
    [mob.submobjects[:3]] finds it. *)
Fixpoint first_text (subs : list Mobject) : option Mobject :=
  match subs with
  | [] => None
  | sub :: rest => if is_text sub then Some sub else first_text rest
  end.

(** [txt[:25]] is the first 25 characters; a string here is a sequence of
    bytes, so the two agree on ASCII text. *)
Definition mob_label (mob : Mobject) : string :=
  let cls := cls_name mob in
  match kind mob with
  | KText =>
      (cls ++ "(" ++ dquote ++ substring 0 25 (text mob) ++ dquote ++ ")")%string
  | KVGroup =>
      match first_text (take 3 (submobjects mob)) with
      | Some sub =>
          (cls ++ "[" ++ dquote ++ substring 0 20 (text sub) ++ dquote ++ ",...]")%string
      | None =>
          (cls ++ "(" ++ decimal (Z.of_nat (length (submobjects mob))) ++ " sub)")%string
      end
  | KOther => cls
  end.

(** ** Exceptions *)

(** A raised [Exception]: its type name and its text. *)
Record Exn : Type := mkExn {
  exn_type : string;
  exn_text : string
}.

Inductive Result (A : Type) : Type :=
  | Returned (a : A)
  | Raised (e : Exn).

Arguments Returned {A} a.
Arguments Raised {A} e.

(** Python code over a mutable state [S]: it returns or raises, and the
    state it leaves behind is kept either way. *)
Definition Py (S A : Type) : Type := S -> Result A * S.

Definition ret {S A : Type} (a : A) : Py S A :=
  fun s => (Returned a, s).

Definition bind {S A B : Type} (m : Py S A) (k : A -> Py S B) : Py S B :=
  fun s =>
    match m s with
    | (Returned a, s') => k a s'
    | (Raised e, s') => (Raised e, s')
    end.

#[export] Instance Py_ret {S : Type} : MRet (Py S) := @ret S.
#[export] Instance Py_bind {S : Type} : MBind (Py S) := fun A B k m => bind m k.

Definition modify {S : Type} (f : S -> S) : Py S unit :=
  fun s => (Returned tt, f s).

(** [try: body / except Exception as e: handler e]. *)
Definition try_except {S A : Type} (body : Py S A) (handler : Exn -> Py S A) : Py S A :=
  fun s =>
    match body s with
    | (Returned a, s') => (Returned a, s')
    | (Raised e, s') => handler e s'
    end.

(** [for x in xs: body x]. *)
Fixpoint for_each {S A : Type} (xs : list A) (body : A -> Py S unit) : Py S unit :=
  match xs with
  | [] => mret tt
  | x :: rest => body x ;; for_each rest body
  end.

(** ** Animations and scenes *)

(** An [Animation]: its target and the four lifecycle calls the validator
    makes.  ([_setup_scene] receives the scene, which is the world.) *)
Record Animation : Type := mkAnimation {
  mobject : option ObjId;
  _setup_scene : Py World unit;
  begin : Py World unit;
  interpolate : Q -> Py World unit;
  finish : Py World unit
}.

(** A positional argument of [play]. *)
Inductive PlayArg : Type :=
  | AnAnimation (anim : Animation)     (* isinstance(anim_arg, Animation) *)
  | NotAnAnimation.

(** One statement of a [construct] body. *)
Inductive Stmt : Type :=
  | SPlay (args : list PlayArg)        (* self.play(...) *)
  | SWait (args : list Q)              (* self.wait(...) *)
  | SOther (code : Py World unit).     (* anything else; it may raise *)

(** A scene class: its [__name__], the world right after [scene_class()],
    and the body of [construct]. *)
Record SceneClass : Type := mkSceneClass {
  class_name : string;
  new_scene : World;
  construct : list Stmt
}.

(** ** Issue tracker *)

Inductive Severity : Type := ERROR | WARN.

(** The text of an issue, with the values its f-string prints:
    - [MsgOOB label l b r t violations]: the OOB line, the label, the box
      as [({l:.1f},{b:.1f})-({r:.1f},{t:.1f})] and [', '.join(violations)];
    - [MsgOverlap pct l1 l2]: the overlap line with [{ratio:.0%}] and the
      two labels in scan order;
    - [MsgConstruct name text]: the line for an exception of [construct()],
      [{type(e).__name__}: {e}]. *)
Inductive Message : Type :=
  | MsgOOB (label : string) (l b r t : string) (violations : list string)
  | MsgOverlap (pct : string) (l1 l2 : string)
  | MsgConstruct (name text : string).

(** The tuple [(severity, scene_name, step, msg)]. *)
Record Issue : Type := mkIssue {
  issue_severity : Severity;
  issue_scene : string;
  issue_step : nat;
  issue_msg : Message
}.

Module IssueTracker.

Record t : Type := mk { issues : list Issue }.

Definition __init__ : t := mk [].

Definition add (self : t) (severity : Severity) (scene_name : string)
    (step : nat) (msg : Message) : t :=
  mk (issues self ++ [mkIssue severity scene_name step msg]).

(** The verdict of [report]; the report itself goes to the console. *)
Definition report (self : t) : bool :=
  match issues self with
  | [] => true
  | _ => false
  end.

End IssueTracker.

(** ** Scene validator *)

(** [tuple(sorted([l1, l2]))]. *)
Definition sorted_pair (l1 l2 : string) : string * string :=
  if String.ltb l2 l1 then (l2, l1) else (l1, l2).

Module SceneValidator.

Record t : Type := mk {
  scene_class : SceneClass;
  scene_name : string;
  tracker : IssueTracker.t;
  overlap_threshold : Q;
  verbose : bool;
  step : nat;
  _reported_overlaps : gset (string * string);
  _reported_oob : gset (string * list string)
}.

Definition __init__ (scene_class : SceneClass) (tracker : IssueTracker.t)
    (overlap_threshold : Q) (verbose : bool) : t :=
  mk scene_class (class_name scene_class) tracker overlap_threshold verbose 0 ∅ ∅.

(** Assignments to the attributes of [self]. *)
Definition set_step (n : nat) (self : t) : t :=
  mk (scene_class self) (scene_name self) (tracker self)
     (overlap_threshold self) (verbose self) n
     (_reported_overlaps self) (_reported_oob self).

Definition set_tracker (tr : IssueTracker.t) (self : t) : t :=
  mk (scene_class self) (scene_name self) tr
     (overlap_threshold self) (verbose self) (step self)
     (_reported_overlaps self) (_reported_oob self).

Definition set_reported_overlaps (r : gset (string * string)) (self : t) : t :=
  mk (scene_class self) (scene_name self) (tracker self)
     (overlap_threshold self) (verbose self) (step self)
     r (_reported_oob self).

Definition set_reported_oob (r : gset (string * list string)) (self : t) : t :=
  mk (scene_class self) (scene_name self) (tracker self)
     (overlap_threshold self) (verbose self) (step self)
     (_reported_overlaps self) r.

(** [self.tracker.add(severity, self.scene_name, self.step, msg)]. *)
Definition tracker_add (severity : Severity) (msg : Message) (self : t) : t :=
  set_tracker
    (IssueTracker.add (tracker self) severity (scene_name self) (step self) msg)
    self.

(** Every mobject has [submobjects], so the [hasattr] test passes. *)
Fixpoint _is_ancestor (potential_ancestor mob : Mobject) : bool :=
  match potential_ancestor with
  | mkMobject _ _ _ _ _ _ _ subs =>
      (fix scan (subs : list Mobject) : bool :=
         match subs with
         | [] => false
         | sub :: rest =>
             if Nat.eqb (mid sub) (mid mob) then true
             else if _is_ancestor sub mob then true
             else scan rest
         end) subs
  end.

Section Scan.

Context {manim : Manim}.

(** The list [mobs_with_bbox]. *)
Fixpoint with_bbox (mobs : list Mobject) : list (Mobject * BBox) :=
  match mobs with
  | [] => []
  | mob :: rest =>
      match get_bbox mob with
      | Some bbox => (mob, bbox) :: with_bbox rest
      | None => with_bbox rest
      end
  end.

(** The body of the out-of-bounds loop. *)
Definition check_oob (self : t) (entry : Mobject * BBox) : t :=
  let '(mob, bbox) := entry in
  let violations := is_oob bbox in
  match violations with
  | [] => self
  | _ =>
      let label := mob_label mob in
      let key := (label, violations) in
      if bool_decide (key ∈ _reported_oob self) then self
      else
        let self := set_reported_oob ({[ key ]} ∪ _reported_oob self) self in
        let '(l, r, b, t) := bbox in
        tracker_add ERROR
          (MsgOOB label (format_fixed 1 l) (format_fixed 1 b)
                  (format_fixed 1 r) (format_fixed 1 t) violations)
          self
  end.

(** The body of the overlap loop for the entries at [i] and [j], [i < j]. *)
Definition check_pair (entry_i entry_j : Mobject * BBox) (self : t) : t :=
  let '(mob_i, bbox_i) := entry_i in
  let '(mob_j, bbox_j) := entry_j in
  if _is_ancestor mob_i mob_j || _is_ancestor mob_j mob_i then self
  else
    let ratio := overlap_ratio bbox_i bbox_j in
    if overlap_threshold self <? ratio then
      let l1 := mob_label mob_i in
      let l2 := mob_label mob_j in
      let key := sorted_pair l1 l2 in
      if bool_decide (key ∈ _reported_overlaps self) then self
      else
        let self := set_reported_overlaps ({[ key ]} ∪ _reported_overlaps self) self in
        let severity := if (6 # 10) <? ratio then ERROR else WARN in
        tracker_add severity (MsgOverlap (format_percent ratio) l1 l2) self
    else self.

(** The two nested index loops: each entry against the ones after it. *)
Fixpoint check_overlaps (entries : list (Mobject * BBox)) (self : t) : t :=
  match entries with
  | [] => self
  | entry_i :: rest =>
      check_overlaps rest
        (fold_left (fun self entry_j => check_pair entry_i entry_j self) rest self)
  end.

Definition _check_frame (self : t) (scene : World) (final : bool) : t :=
  let mobs_with_bbox := with_bbox (scene_mobjects scene) in
  let self := fold_left check_oob mobs_with_bbox self in
  check_overlaps mobs_with_bbox self.

(** The state that [validate] and its two closures work on. *)
Record State : Type := mkState {
  validator : t;
  scene : World
}.

(** Code of the framework, which only sees the scene. *)
Definition on_scene {A : Type} (code : Py World A) : Py State A :=
  fun st =>
    let '(r, w) := code (scene st) in
    (r, mkState (validator st) w).

(** [if mob not in scene.mobjects: scene.add(mob)]. *)
Definition add_if_absent (mob : ObjId) : Py State unit :=
  modify (fun st =>
    if bool_decide (mob ∈ mobjects (scene st)) then st
    else mkState (validator st) (scene_add (scene st) mob)).

(** The body of the [try]: the animation driven to its final state. *)
Definition lifecycle (anim : Animation) : Py State unit :=
  on_scene (_setup_scene anim) ;;
  on_scene (begin anim) ;;
  on_scene (interpolate anim 1) ;;
  on_scene (finish anim).

(** The body of the loop of [patched_play].  The handler only prints, and
    only when [verbose] is set. *)
Definition play_arg (anim_arg : PlayArg) : Py State unit :=
  match anim_arg with
  | AnAnimation anim =>
      match mobject anim with
      | Some mob =>
          add_if_absent mob ;;
          try_except (lifecycle anim) (fun e => mret tt) ;;
          add_if_absent mob
      | None => mret tt
      end
  | NotAnAnimation => mret tt
  end.

Definition patched_play (args : list PlayArg) : Py State unit :=
  for_each args play_arg ;;
  modify (fun st => mkState (set_step (step (validator st) + 1) (validator st)) (scene st)) ;;
  modify (fun st => mkState (_check_frame (validator st) (scene st) false) (scene st)).

Definition patched_wait (args : list Q) : Py State unit :=
  mret tt.

(** [scene.construct()] with [play] and [wait] replaced. *)
Definition run_stmt (stmt : Stmt) : Py State unit :=
  match stmt with
  | SPlay args => patched_play args
  | SWait args => patched_wait args
  | SOther code => on_scene code
  end.

Definition validate (self : t) : Result unit * State :=
  let self := set_step 0 self in
  let self := set_reported_overlaps ∅ self in
  let self := set_reported_oob ∅ self in
  let scene0 := new_scene (scene_class self) in
  (try_except
     (for_each (construct (scene_class self)) run_stmt)
     (fun e =>
        modify (fun st =>
          mkState
            (tracker_add ERROR (MsgConstruct (exn_type e) (exn_text e)) (validator st))
            (scene st))) ;;
   modify (fun st => mkState (_check_frame (validator st) (scene st) true) (scene st)))
    (mkState self scene0).

End Scan.

End SceneValidator.

(** ** Main *)

Section Main.

Context {manim : Manim}.

(** The loop of [main] over the scene classes, on one shared tracker. *)
Definition validate_all (scene_classes : list SceneClass)
    (overlap_threshold : Q) (verbose : bool) : IssueTracker.t :=
  fold_left
    (fun tracker sc =>
       let validator := SceneValidator.__init__ sc tracker overlap_threshold verbose in
       SceneValidator.tracker (SceneValidator.validator (snd (SceneValidator.validate validator))))
    scene_classes IssueTracker.__init__.

End Main.

(** ** Notions used to state the properties *)

(** [descendant a n]: [n] is reached from [a] by one or more child steps. *)
Inductive descendant : Mobject -> Mobject -> Prop :=
  | descendant_child (a c : Mobject) :
      In c (submobjects a) -> descendant a c
  | descendant_step (a c n : Mobject) :
      In c (submobjects a) -> descendant c n -> descendant a n.

(** A degenerate element: no points and no children, or a box narrower or
    flatter than [1e-5]. *)
Definition degenerate (mob : Mobject) : Prop :=
  (has_points mob = false /\ submobjects mob = []) \/
  (exists ul dr,
     corner_UL mob = Some ul /\ corner_DR mob = Some dr /\
     (fst dr - fst ul < 1 # 100000 \/ snd ul - snd dr < 1 # 100000)).

(** The deduplication key a recorded finding was filed under. *)
Inductive Key : Type :=
  | KeyOOB (label : string) (violations : list string)
  | KeyOverlap (labels : string * string).

Definition issue_key (i : Issue) : option Key :=
  match issue_msg i with
  | MsgOOB label _ _ _ _ violations => Some (KeyOOB label violations)
  | MsgOverlap _ l1 l2 => Some (KeyOverlap (sorted_pair l1 l2))
  | MsgConstruct _ _ => None
  end.

(** The violated edges of a box, without the coordinates. *)
Inductive Edge : Type := LEFT | RIGHT | BOTTOM | TOP.

Definition violated_edges {manim : Manim} (bbox : BBox) : list Edge :=
  let '(l, r, b, t) := bbox in
  (if l <? - HALF_W - EDGE_TOL then [LEFT] else []) ++
  (if HALF_W + EDGE_TOL <? r then [RIGHT] else []) ++
  (if b <? - HALF_H - EDGE_TOL then [BOTTOM] else []) ++
  (if HALF_H + EDGE_TOL <? t then [TOP] else []).

Definition is_play (stmt : Stmt) : bool :=
  match stmt with
  | SPlay _ => true
  | _ => false
  end.

Definition is_wait (stmt : Stmt) : bool :=
  match stmt with
  | SWait _ => true
  | _ => false
  end.

(** The statements of a [construct] body that are run from state [st]:
    all of them, or those up to the first one that raises. *)
Fixpoint processed {manim : Manim} (stmts : list Stmt)
    (st : SceneValidator.State) : list Stmt :=
  match stmts with
  | [] => []
  | stmt :: rest =>
      stmt ::
      match SceneValidator.run_stmt stmt st with
      | (Returned _, st') => processed rest st'
      | (Raised _, _) => []
      end
  end.

(** A [play] argument that the loop of [patched_play] passes over. *)
Definition skipped (arg : PlayArg) : Prop :=
  match arg with
  | AnAnimation anim => mobject anim = None
  | NotAnAnimation => True
  end.

(** [filed v v']: [v'] is [v] after some findings were filed; the
    configuration and the step are those of [v], and the new issues carry
    the scene name and the step of [v]. *)
Definition filed (v v' : SceneValidator.t) : Prop :=
  SceneValidator.step v' = SceneValidator.step v /\
  SceneValidator.scene_name v' = SceneValidator.scene_name v /\
  SceneValidator.scene_class v' = SceneValidator.scene_class v /\
  SceneValidator.overlap_threshold v' = SceneValidator.overlap_threshold v /\
  SceneValidator.verbose v' = SceneValidator.verbose v /\
  exists new,
    IssueTracker.issues (SceneValidator.tracker v')
      = IssueTracker.issues (SceneValidator.tracker v) ++ new /\
    Forall (fun i => issue_step i = SceneValidator.step v /\
                     issue_scene i = SceneValidator.scene_name v) new.

(** [deduplicated base v]: the issues of [v] are [base] followed by the
    findings of the current run, no two of them filed under one key, and
    the two [_reported_*] sets hold exactly the keys of those findings. *)
Definition deduplicated (base : list Issue) (v : SceneValidator.t) : Prop :=
  exists new,
    IssueTracker.issues (SceneValidator.tracker v) = base ++ new /\
    NoDup (omap issue_key new) /\
    (forall label violations,
       (label, violations) ∈ SceneValidator._reported_oob v <->
       KeyOOB label violations ∈ omap issue_key new) /\
    (forall labels,
       labels ∈ SceneValidator._reported_overlaps v <->
       KeyOverlap labels ∈ omap issue_key new).

(** [kept v v']: every key reported in [v] is still reported in [v']. *)
Definition kept (v v' : SceneValidator.t) : Prop :=
  SceneValidator._reported_oob v ⊆ SceneValidator._reported_oob v' /\
  SceneValidator._reported_overlaps v ⊆ SceneValidator._reported_overlaps v'.

(** ** A concrete framework and concrete scenes *)

Module Demo.

(** Default frame of manim: 8 high, 16:9; [add] appends. *)
Definition manim : Manim := {|
  frame_width := 128 # 9;
  frame_height := 8;
  scene_add := fun w mob => mkWorld (store w) (mobjects w ++ [mob])
|}.

Definition shape (i : ObjId) (cls : string) (bbox : BBox) : Mobject :=
  let '(l, r, b, t) := bbox in
  mkMobject i cls KOther EmptyString true (Some (l, t)) (Some (r, b)) [].

Definition blank (i : ObjId) : Mobject :=
  mkMobject i "Mobject" KOther EmptyString false None None [].

(** A world whose mobjects are [ms], all of them in the scene. *)
Definition world_of (ms : list Mobject) : World :=
  mkWorld (fun i => nth i ms (blank i)) (seq 0 (length ms)).

(** Code of [construct] that leaves the scene holding exactly [ms]. *)
Definition arrange (ms : list Mobject) : Py World unit :=
  fun _ => (Returned tt, world_of ms).

Definition failing : Py World unit :=
  fun w => (Raised (mkExn "ValueError" "bad animation"), w).

Definition no_op : Py World unit := mret tt.

(** An animation of mobject 0 whose [begin] raises. *)
Definition broken : Animation :=
  mkAnimation (Some 0%nat) no_op failing (fun _ => no_op) no_op.

(** An animation of mobject 1 that moves nothing. *)
Definition still : Animation :=
  mkAnimation (Some 1%nat) no_op no_op (fun _ => no_op) no_op.

Definition validator_for (sc : SceneClass) (threshold : Q) : SceneValidator.t :=
  SceneValidator.__init__ sc IssueTracker.__init__ threshold false.

(** A square off the left edge at step 1, further off at step 2. *)
Definition drifting : SceneClass :=
  mkSceneClass "Drifting" (world_of [])
    [ SOther (arrange [shape 0 "Square" (-8, -6, -1, 1)]); SPlay [];
      SOther (arrange [shape 0 "Square" (-9, -7, -1, 1)]); SPlay [] ].

(** Two boxes, seven tenths of each covered by the other. *)
Definition covered : SceneClass :=
  mkSceneClass "Covered" (world_of [])
    [ SOther (arrange [shape 0 "Square" (0, 5, 0, 1);
                       shape 1 "Circle" (3 # 2, 13 # 2, 0, 1)]);
      SPlay [] ].

(** Two empty batches, then a square placed off the left edge. *)
Definition late : SceneClass :=
  mkSceneClass "Late" (world_of [])
    [ SPlay []; SPlay [AnAnimation still; NotAnAnimation];
      SOther (arrange [shape 0 "Square" (-8, -6, -1, 1)]) ].

Definition group (i : ObjId) (subs : list Mobject) (bbox : BBox) : Mobject :=
  let '(l, r, b, t) := bbox in
  mkMobject i "VGroup" KVGroup EmptyString false (Some (l, t)) (Some (r, b)) subs.

Definition label_box : Mobject := shape 1 "Square" (0, 1, 0, 1).
Definition panel : Mobject := group 0 [label_box] (-1, 5, -1, 3).
Definition sliver : Mobject := shape 2 "Line" (0, 0, 0, 1).

End Demo.

(** ** Further notions *)


(** An entry whose OOB finding, if it has one, is already reported. *)
Definition oob_settled {manim : Manim} (v : SceneValidator.t)
    (entry : Mobject * BBox) : Prop :=
  is_oob (snd entry) = [] \/
  (mob_label (fst entry), is_oob (snd entry)) ∈ SceneValidator._reported_oob v.

(** A pair that the overlap loop passes over, or whose finding is already
    reported. *)
Definition pair_settled (v : SceneValidator.t)
    (entry_i entry_j : Mobject * BBox) : Prop :=
  SceneValidator._is_ancestor (fst entry_i) (fst entry_j) = true \/
  SceneValidator._is_ancestor (fst entry_j) (fst entry_i) = true \/
  overlap_ratio (snd entry_i) (snd entry_j) <= SceneValidator.overlap_threshold v \/
  sorted_pair (mob_label (fst entry_i)) (mob_label (fst entry_j))
    ∈ SceneValidator._reported_overlaps v.

(** A list of entries in which a scan has nothing new to find. *)
Definition settled {manim : Manim} (v : SceneValidator.t)
    (entries : list (Mobject * BBox)) : Prop :=
  Forall (oob_settled v) entries /\ ForallOrdPairs (pair_settled v) entries.

(** [grown v v']: keys were added, the threshold is the same. *)
Definition grown (v v' : SceneValidator.t) : Prop :=
  kept v v' /\
  SceneValidator.overlap_threshold v' = SceneValidator.overlap_threshold v.

(** [on_top p v]: [v] with the issues [p] put before those of its tracker. *)
Definition on_top (p : list Issue) (v : SceneValidator.t) : SceneValidator.t :=
  SceneValidator.set_tracker
    (IssueTracker.mk (p ++ IssueTracker.issues (SceneValidator.tracker v))) v.

Definition state_on_top (p : list Issue) (st : SceneValidator.State) :
    SceneValidator.State :=
  SceneValidator.mkState (on_top p (SceneValidator.validator st))
                         (SceneValidator.scene st).

(** The issues a scene class yields when it is validated on its own, with
    a tracker of its own. *)
Definition findings {manim : Manim} (sc : SceneClass) (overlap_threshold : Q)
    (verbose : bool) : list Issue :=
  IssueTracker.issues
    (SceneValidator.tracker
       (SceneValidator.validator
          (snd (SceneValidator.validate
                  (SceneValidator.__init__ sc IssueTracker.__init__
                     overlap_threshold verbose))))).

(** What one argument of [play] does to the scene, seen from the scene
    alone. *)
Definition play_arg_in_scene {manim : Manim} (anim_arg : PlayArg) : Py World unit :=
  match anim_arg with
  | AnAnimation anim =>
      match mobject anim with
      | Some mob =>
          let add_if_absent : Py World unit :=
            modify (fun w =>
              if bool_decide (mob ∈ mobjects w) then w else scene_add w mob) in
          add_if_absent ;;
          try_except
            (_setup_scene anim ;; begin anim ;; interpolate anim 1 ;; finish anim)
            (fun e => mret tt) ;;
          add_if_absent
      | None => mret tt
      end
  | NotAnAnimation => mret tt
  end.


(** An issue that a frame scan of the scene [name] files at a step
    between [lo] and [hi]: an OOB finding, which is an ERROR and names a
    violated edge, or an overlap finding. *)
Definition finding (name : string) (lo hi : nat) (i : Issue) : Prop :=
  issue_scene i = name /\
  (lo <= issue_step i <= hi)%nat /\
  match issue_msg i with
  | MsgOOB _ _ _ _ _ violations => issue_severity i = ERROR /\ violations <> []
  | MsgOverlap _ _ _ => True
  | MsgConstruct _ _ => False
  end.

Definition by_step (i j : Issue) : Prop := (issue_step i <= issue_step j)%nat.

(** [ran v v']: [v'] is [v] after some statements ran: the step did not
    go down, and the new issues are scan findings in step order. *)
Definition ran (v v' : SceneValidator.t) : Prop :=
  SceneValidator.scene_name v' = SceneValidator.scene_name v /\
  (SceneValidator.step v <= SceneValidator.step v')%nat /\
  exists new,
    IssueTracker.issues (SceneValidator.tracker v')
      = IssueTracker.issues (SceneValidator.tracker v) ++ new /\
    Forall (finding (SceneValidator.scene_name v)
                    (SceneValidator.step v) (SceneValidator.step v')) new /\
    StronglySorted by_step new.

(** ** More concrete values *)

Module Samples.

(** Code that takes every mobject out of the scene. *)
Definition clear_scene : Py World unit :=
  fun w => (Returned tt, mkWorld (store w) []).

(** An animation of mobject 0 whose [finish] empties the scene. *)
Definition vanishing : Animation :=
  mkAnimation (Some 0%nat) Demo.no_op Demo.no_op (fun _ => Demo.no_op) clear_scene.

(** An animation of mobject 0 that empties the scene and then raises. *)
Definition crashing : Animation :=
  mkAnimation (Some 0%nat) clear_scene Demo.failing (fun _ => Demo.no_op) Demo.no_op.

End Samples.

(** ** The report *)

(** What [IssueTracker.report] prints when there are issues: the scenes in
    the order of their first issue, under each scene its errors and then
    its warnings, and the two totals. *)
Module Report.

(** An entry [(sev, step, msg)] of [by_scene]. *)
Definition Item : Type := (Severity * nat * Message)%type.

(** [by_scene[scene].append(item)] on a dictionary in insertion order. *)
Fixpoint append (by_scene : list (string * list Item)) (scene : string)
    (item : Item) : list (string * list Item) :=
  match by_scene with
  | [] => [(scene, [item])]
  | (name, items) :: rest =>
      if String.eqb name scene then (name, items ++ [item]) :: rest
      else (name, items) :: append rest scene item
  end.

Definition by_scene (issues : list Issue) : list (string * list Item) :=
  fold_left
    (fun d i => append d (issue_scene i) (issue_severity i, issue_step i, issue_msg i))
    issues [].

Definition is_error (item : Item) : bool :=
  match fst (fst item) with
  | ERROR => true
  | WARN => false
  end.

Definition is_warn (item : Item) : bool :=
  match fst (fst item) with
  | ERROR => false
  | WARN => true
  end.

Definition errors (items : list Item) : list Item := List.filter is_error items.
Definition warns (items : list Item) : list Item := List.filter is_warn items.

(** The lines under one scene header, in print order. *)
Definition scene_lines (items : list Item) : list Item :=
  errors items ++ warns items.

Definition total_err (self : IssueTracker.t) : nat :=
  length (List.filter (fun i => match issue_severity i with ERROR => true | WARN => false end)
                      (IssueTracker.issues self)).

Definition total_warn (self : IssueTracker.t) : nat :=
  length (List.filter (fun i => match issue_severity i with ERROR => false | WARN => true end)
                      (IssueTracker.issues self)).

Record Printed : Type := mkPrinted {
  count : nat;                                  (* len(self.issues) *)
  sections : list (string * list Item);         (* scene header, its lines *)
  totals : nat * nat                            (* total_err, total_warn *)
}.

(** [None] stands for the one line printed when there is no issue. *)
Definition printed (self : IssueTracker.t) : option Printed :=
  match IssueTracker.issues self with
  | [] => None
  | issues =>
      Some (mkPrinted (length issues)
              (map (fun entry => (fst entry, scene_lines (snd entry))) (by_scene issues))
              (total_err self, total_warn self))
  end.

(** The issue that a printed line stands for. *)
Definition issue_of (scene : string) (item : Item) : Issue :=
  mkIssue (fst (fst item)) scene (snd (fst item)) (snd item).

Definition printed_issues (sections : list (string * list Item)) : list Issue :=
  flat_map (fun entry => map (issue_of (fst entry)) (snd entry)) sections.

End Report.

(** ** The driver *)

Module Main.

(** A name of the scenes module with the object it is bound to, as far as
    [main] looks at it. *)
Record Attr : Type := mkAttr {
  attr_name : string;
  attr_is_type : bool;           (* isinstance(obj, type) *)
  attr_is_scene : bool;          (* issubclass(obj, Scene) *)
  attr_module : string;          (* obj.__module__ *)
  attr_class : SceneClass
}.

Record PyModule : Type := mkPyModule {
  module_name : string;          (* scenes_mod.__name__ *)
  module_dir : list Attr         (* dir(scenes_mod), with getattr *)
}.


Definition name_le (a b : Attr) : Prop :=
  String.leb (attr_name a) (attr_name b) = true.

#[export] Instance name_le_dec (a b : Attr) : Decision (name_le a b).
Proof. unfold name_le. apply _. Defined.

(** The test of the discovery loop on one name. *)
Definition accepted (scenes_mod : PyModule) (scene : option string) (a : Attr) : bool :=
  attr_is_type a && attr_is_scene a
  && String.eqb (attr_module a) (module_name scenes_mod)
  && String.prefix "Scene" (attr_name a)
  && match scene with
     | None => true
     | Some name => String.eqb (attr_name a) name
     end.

(** The names that the loop over [sorted(dir(scenes_mod))] keeps. *)
Definition selected (scenes_mod : PyModule) (scene : option string) : list Attr :=
  List.filter (accepted scenes_mod scene) (merge_sort name_le (module_dir scenes_mod)).

Definition discover (scenes_mod : PyModule) (scene : option string) : list SceneClass :=
  map attr_class (selected scenes_mod scene).


End Main.

(** The strings of a list, each at its first occurrence. *)
Fixpoint first_occurrences (l : list string) : list string :=
  match l with
  | [] => []
  | s :: rest => s :: List.filter (fun x => negb (String.eqb x s)) (first_occurrences rest)
  end.

(** The issues of one scene, of one severity, in tracker order. *)
Definition issues_of (scene : string) (severity : Severity) (issues : list Issue) :
    list Issue :=
  List.filter
    (fun i =>
       String.eqb (issue_scene i) scene &&
       match issue_severity i, severity with
       | ERROR, ERROR | WARN, WARN => true
       | _, _ => false
       end)
    issues.

(** The entries [(sev, step, msg)] filed for [scene], in tracker order. *)
Definition items_of (scene : string) (issues : list Issue) : list Report.Item :=
  map (fun i => (issue_severity i, issue_step i, issue_msg i))
      (List.filter (fun i => String.eqb (issue_scene i) scene) issues).

(** The pairs of the two nested index loops over a list, in the order in
    which the loops reach them. *)
Fixpoint ordered_pairs {A : Type} (l : list A) : list (A * A) :=
  match l with
  | [] => []
  | x :: rest => map (pair x) rest ++ ordered_pairs rest
  end.

Module MoreSamples.



Definition scenes_mod : Main.PyModule :=
  Main.mkPyModule "scenes"
    [ Main.mkAttr "Scene2_Tokenization" true true "scenes" Demo.covered;
      Main.mkAttr "Text" true false "manim" Demo.late;
      Main.mkAttr "Scene" true true "manim.scene.scene" Demo.late;
      Main.mkAttr "Scene1_Title" true true "scenes" Demo.drifting;
      Main.mkAttr "BG_COLOR" false false "builtins" Demo.late ].

End MoreSamples.

(** * Properties *)

(** ** Rational comparisons *)

Lemma Qltb_lt (x y : Q) : (x <? y) = true <-> x < y.
Proof.
  unfold Qltb. rewrite Qlt_alt. destruct (Qcompare x y); split; congruence.
Qed.

Lemma Qltb_ge (x y : Q) : (x <? y) = false <-> y <= x.
Proof.
  split; intros H.
  - apply Qnot_lt_le. intros Hlt. apply Qltb_lt in Hlt. congruence.
  - destruct (x <? y) eqn:E; [|reflexivity].
    apply Qltb_lt in E. exfalso. exact (Qlt_not_le _ _ E H).
Qed.

Lemma Qmax_0_nonneg (x : Q) : 0 <= Qmax 0 x.
Proof. apply Q.le_max_l. Qed.

Lemma Qmax_0_pos (x : Q) : 0 < x -> Qmax 0 x == x.
Proof. intros H. apply Q.max_r. apply Qlt_le_weak, H. Qed.

Lemma bbox_area_nonneg (bbox : BBox) : 0 <= bbox_area bbox.
Proof.
  destruct bbox as [[[l r] b] t]. simpl.
  apply Qmult_le_0_compat; apply Qmax_0_nonneg.
Qed.

(** ** Geometry *)

Lemma bbox_intersection_Some (b1 b2 inter : BBox) :
  bbox_intersection b1 b2 = Some inter ->
  let '(l1, r1, bo1, t1) := b1 in
  let '(l2, r2, bo2, t2) := b2 in
  inter = (Qmax l1 l2, Qmin r1 r2, Qmax bo1 bo2, Qmin t1 t2) /\
  Qmax l1 l2 < Qmin r1 r2 /\ Qmax bo1 bo2 < Qmin t1 t2.
Proof.
  destruct b1 as [[[l1 r1] bo1] t1], b2 as [[[l2 r2] bo2] t2]. simpl.
  destruct (Qmax l1 l2 <? Qmin r1 r2) eqn:E1; simpl; [|discriminate].
  destruct (Qmax bo1 bo2 <? Qmin t1 t2) eqn:E2; simpl; [|discriminate].
  intros [= <-]. apply Qltb_lt in E1, E2. auto.
Qed.

(** The intersection is no larger than either box. *)
Lemma inter_area_le (b1 b2 inter : BBox) :
  bbox_intersection b1 b2 = Some inter ->
  0 < bbox_area inter /\
  bbox_area inter <= bbox_area b1 /\ bbox_area inter <= bbox_area b2.
Proof.
  intros H. apply bbox_intersection_Some in H.
  destruct b1 as [[[l1 r1] bo1] t1], b2 as [[[l2 r2] bo2] t2].
  destruct H as (-> & Hx & Hy). simpl.
  pose proof (Q.le_max_l l1 l2). pose proof (Q.le_max_r l1 l2).
  pose proof (Q.le_min_l r1 r2). pose proof (Q.le_min_r r1 r2).
  pose proof (Q.le_max_l bo1 bo2). pose proof (Q.le_max_r bo1 bo2).
  pose proof (Q.le_min_l t1 t2). pose proof (Q.le_min_r t1 t2).
  set (l := Qmax l1 l2) in *. set (r := Qmin r1 r2) in *.
  set (b := Qmax bo1 bo2) in *. set (t := Qmin t1 t2) in *.
  rewrite (Qmax_0_pos (r - l)) by lra.
  rewrite (Qmax_0_pos (t - b)) by lra.
  rewrite (Qmax_0_pos (r1 - l1)) by lra.
  rewrite (Qmax_0_pos (t1 - bo1)) by lra.
  rewrite (Qmax_0_pos (r2 - l2)) by lra.
  rewrite (Qmax_0_pos (t2 - bo2)) by lra.
  repeat split; nra.
Qed.

Lemma overlap_ratio_no_inter (b1 b2 : BBox) :
  bbox_intersection b1 b2 = None -> overlap_ratio b1 b2 = 0.
Proof. unfold overlap_ratio. intros ->. reflexivity. Qed.

Lemma bbox_intersection_apart (l1 r1 bo1 t1 l2 r2 bo2 t2 : Q) :
  r1 <= l2 \/ r2 <= l1 \/ t1 <= bo2 \/ t2 <= bo1 ->
  bbox_intersection (l1, r1, bo1, t1) (l2, r2, bo2, t2) = None.
Proof.
  intros H.
  destruct (bbox_intersection (l1, r1, bo1, t1) (l2, r2, bo2, t2)) as [inter|] eqn:E;
    [|reflexivity].
  apply bbox_intersection_Some in E. destruct E as (_ & Hx & Hy).
  pose proof (Q.le_max_l l1 l2). pose proof (Q.le_max_r l1 l2).
  pose proof (Q.le_min_l r1 r2). pose proof (Q.le_min_r r1 r2).
  pose proof (Q.le_max_l bo1 bo2). pose proof (Q.le_max_r bo1 bo2).
  pose proof (Q.le_min_l t1 t2). pose proof (Q.le_min_r t1 t2).
  exfalso. lra.
Qed.

(** C4. [overlap_ratio] is the area of the intersection divided by the
    smaller of the two areas, it lies between 0 and 1, and it is 0 when
    an area is below [1e-6], when there is no intersection, and when the
    boxes are apart or only touch along an edge (the intersection test is
    strict on both axes). *)
Theorem overlap_ratio_spec (l1 r1 bo1 t1 l2 r2 bo2 t2 : Q) :
  let b1 : BBox := (l1, r1, bo1, t1) in
  let b2 : BBox := (l2, r2, bo2, t2) in
  (0 <= overlap_ratio b1 b2 /\ overlap_ratio b1 b2 <= 1) /\
  (forall inter,
     bbox_intersection b1 b2 = Some inter ->
     1 # 1000000 <= Qmin (bbox_area b1) (bbox_area b2) ->
     overlap_ratio b1 b2 = bbox_area inter / Qmin (bbox_area b1) (bbox_area b2)) /\
  (bbox_area b1 < 1 # 1000000 \/ bbox_area b2 < 1 # 1000000 ->
     overlap_ratio b1 b2 = 0) /\
  (bbox_intersection b1 b2 = None -> overlap_ratio b1 b2 = 0) /\
  (bbox_intersection b1 b2 = None <->
     ~ (Qmax l1 l2 < Qmin r1 r2 /\ Qmax bo1 bo2 < Qmin t1 t2)) /\
  (r1 <= l2 \/ r2 <= l1 \/ t1 <= bo2 \/ t2 <= bo1 -> overlap_ratio b1 b2 = 0).
Proof.
  intros b1 b2. repeat split.
  - unfold overlap_ratio.
    destruct (bbox_intersection b1 b2) as [inter|] eqn:E; [|lra].
    destruct (inter_area_le _ _ _ E) as (Hpos & _ & _).
    destruct (Qmin (bbox_area b1) (bbox_area b2) <? 1 # 1000000) eqn:Em; [lra|].
    apply Qltb_ge in Em.
    apply Qle_shift_div_l; lra.
  - unfold overlap_ratio.
    destruct (bbox_intersection b1 b2) as [inter|] eqn:E; [|lra].
    destruct (inter_area_le _ _ _ E) as (Hpos & H1 & H2).
    destruct (Qmin (bbox_area b1) (bbox_area b2) <? 1 # 1000000) eqn:Em; [lra|].
    apply Qltb_ge in Em.
    apply Qle_shift_div_r; [lra|].
    rewrite Qmult_1_l. apply Q.min_glb; assumption.
  - intros inter E Hmin. unfold overlap_ratio. rewrite E.
    apply Qltb_ge in Hmin. rewrite Hmin. reflexivity.
  - intros Hsmall. unfold overlap_ratio.
    destruct (bbox_intersection b1 b2) as [inter|]; [|reflexivity].
    assert (Hlt : Qmin (bbox_area b1) (bbox_area b2) < 1 # 1000000).
    { pose proof (Q.le_min_l (bbox_area b1) (bbox_area b2)).
      pose proof (Q.le_min_r (bbox_area b1) (bbox_area b2)).
      destruct Hsmall; lra. }
    apply Qltb_lt in Hlt. rewrite Hlt. reflexivity.
  - apply overlap_ratio_no_inter.
  - intros E [Hx Hy]. apply Qltb_lt in Hx, Hy.
    unfold b1, b2 in E. simpl in E. rewrite Hx, Hy in E. discriminate.
  - intros Hn. unfold b1, b2. simpl.
    destruct (Qmax l1 l2 <? Qmin r1 r2) eqn:Ex; [|reflexivity].
    destruct (Qmax bo1 bo2 <? Qmin t1 t2) eqn:Ey; [|reflexivity].
    apply Qltb_lt in Ex, Ey. tauto.
  - intros H. apply overlap_ratio_no_inter, bbox_intersection_apart, H.
Qed.

Lemma overlap_ratio_spec_witness :
  overlap_ratio (0, 2, 0, 1) (1, 3, 0, 1)
  = bbox_area (1, 2, 0, 1) / Qmin (bbox_area (0, 2, 0, 1)) (bbox_area (1, 3, 0, 1)) /\
  overlap_ratio (0, 1, 0, 1) (1, 2, 0, 1) = 0 /\
  overlap_ratio (0, 0, 0, 1) (0, 2, 0, 1) = 0.
Proof.
  split; [|split].
  - destruct (overlap_ratio_spec 0 2 0 1 1 3 0 1) as (_ & H & _).
    apply H; [reflexivity | vm_compute; discriminate].
  - destruct (overlap_ratio_spec 0 1 0 1 1 2 0 1) as (_ & _ & _ & _ & _ & H).
    apply H. left. vm_compute. discriminate.
  - destruct (overlap_ratio_spec 0 0 0 1 0 2 0 1) as (_ & _ & H & _).
    apply H. left. reflexivity.
Defined.

(** ** Ancestors *)

(** What the loop of [_is_ancestor] computes over the children. *)
Lemma is_ancestor_unfold (a mob : Mobject) :
  SceneValidator._is_ancestor a mob =
  existsb (fun sub => Nat.eqb (mid sub) (mid mob) || SceneValidator._is_ancestor sub mob)
          (submobjects a).
Proof.
  destruct a as [i c k tx hp ul dr subs]. simpl.
  induction subs as [|sub rest IH]; simpl; [reflexivity|].
  destruct (Nat.eqb (mid sub) (mid mob)); simpl; [reflexivity|].
  destruct (SceneValidator._is_ancestor sub mob); simpl; [reflexivity|].
  exact IH.
Qed.

Lemma is_ancestor_descendant (a mob : Mobject) :
  SceneValidator._is_ancestor a mob = true <->
  exists n, descendant a n /\ mid n = mid mob.
Proof.
  induction a as [a IH] using Mobject_ind_sub.
  rewrite is_ancestor_unfold, existsb_exists. split.
  - intros (sub & Hin & Hsub).
    apply orb_true_iff in Hsub. destruct Hsub as [Hid | Hrec].
    + exists sub. split; [now constructor | now apply Nat.eqb_eq].
    + rewrite Forall_forall in IH.
      apply (IH sub) in Hrec; [|now apply list_elem_of_In].
      destruct Hrec as (n & Hd & Hn).
      exists n. split; [|exact Hn]. eapply descendant_step; eauto.
  - intros (n & Hd & Hn).
    destruct Hd as [a c Hin | a c n Hin Hd].
    + exists c. split; [exact Hin|].
      apply orb_true_iff. left. now apply Nat.eqb_eq.
    + exists c. split; [exact Hin|].
      apply orb_true_iff. right.
      rewrite Forall_forall in IH.
      apply (IH c); [now apply list_elem_of_In|].
      exists n. split; assumption.
Qed.

(** C6. [_is_ancestor a n] holds exactly when [n] is reached from [a] by
    one or more child steps, so a mobject without children is an ancestor
    of nothing, itself included; and the overlap loop passes over a pair
    related either way, whatever the two boxes are. *)
Theorem is_ancestor_spec (a n : Mobject) :
  (SceneValidator._is_ancestor a n = true <->
     exists d, descendant a d /\ mid d = mid n) /\
  (submobjects a = [] -> SceneValidator._is_ancestor a a = false) /\
  (forall (bbox_a bbox_n : BBox) (self : SceneValidator.t),
     SceneValidator._is_ancestor a n = true \/
     SceneValidator._is_ancestor n a = true ->
     SceneValidator.check_pair (a, bbox_a) (n, bbox_n) self = self).
Proof.
  split; [apply is_ancestor_descendant|]. split.
  - intros Hleaf. rewrite is_ancestor_unfold, Hleaf. reflexivity.
  - intros bbox_a bbox_n self H. unfold SceneValidator.check_pair.
    destruct H as [-> | ->]; [reflexivity|].
    rewrite orb_true_r. reflexivity.
Qed.

Lemma is_ancestor_spec_witness :
  SceneValidator._is_ancestor Demo.panel Demo.label_box = true /\
  SceneValidator._is_ancestor Demo.label_box Demo.label_box = false /\
  overlap_ratio (-1, 5, -1, 3) (0, 1, 0, 1) == 1 /\
  forall self,
    SceneValidator.check_pair
      (Demo.panel, (-1, 5, -1, 3)) (Demo.label_box, (0, 1, 0, 1)) self = self.
Proof.
  split; [|split; [|split]].
  - apply (is_ancestor_spec Demo.panel Demo.label_box).
    exists Demo.label_box. split; [|reflexivity].
    apply descendant_child. simpl. left. reflexivity.
  - apply (is_ancestor_spec Demo.label_box Demo.label_box). reflexivity.
  - reflexivity.
  - intros self.
    apply (is_ancestor_spec Demo.panel Demo.label_box).
    left. reflexivity.
Defined.

(** ** Frame scan: which elements are scanned *)

Lemma with_bbox_app (xs ys : list Mobject) :
  SceneValidator.with_bbox (xs ++ ys) =
  SceneValidator.with_bbox xs ++ SceneValidator.with_bbox ys.
Proof.
  induction xs as [|x xs IH]; simpl; [reflexivity|].
  destruct (get_bbox x); simpl; rewrite IH; reflexivity.
Qed.

Lemma with_bbox_In (mobs : list Mobject) (mob : Mobject) (bbox : BBox) :
  In (mob, bbox) (SceneValidator.with_bbox mobs) -> get_bbox mob = Some bbox.
Proof.
  induction mobs as [|x xs IH]; simpl; [tauto|].
  destruct (get_bbox x) as [b|] eqn:E; [|exact IH].
  intros [Heq | Hin]; [|exact (IH Hin)].
  injection Heq as <- <-. exact E.
Qed.

Lemma degenerate_no_bbox (mob : Mobject) : degenerate mob -> get_bbox mob = None.
Proof.
  unfold degenerate, get_bbox.
  intros [[Hp Hs] | (ul & dr & -> & -> & Hsmall)].
  - rewrite Hp, Hs. reflexivity.
  - destruct (negb (has_points mob) && bool_decide (submobjects mob = []));
      [reflexivity|].
    destruct Hsmall as [H | H]; apply Qltb_lt in H; rewrite H;
      [|rewrite orb_true_r]; reflexivity.
Qed.

(** C5. A degenerate element has no box, so it is no entry of
    [mobs_with_bbox]: neither pass of any frame scan sees it, and the scan
    of a scene gives the same result with the element taken out. *)
Theorem degenerate_excluded (manim : Manim) (mob : Mobject) :
  degenerate mob ->
  get_bbox mob = None /\
  (forall mobs bbox, ~ In (mob, bbox) (SceneValidator.with_bbox mobs)) /\
  (forall self scene scene' final pre post,
     scene_mobjects scene = pre ++ mob :: post ->
     scene_mobjects scene' = pre ++ post ->
     SceneValidator._check_frame self scene final =
     SceneValidator._check_frame self scene' final).
Proof.
  intros Hdeg. pose proof (degenerate_no_bbox mob Hdeg) as Hnone.
  split; [exact Hnone|]. split.
  - intros mobs bbox Hin. apply with_bbox_In in Hin. congruence.
  - intros self scene scene' final pre post E E'.
    unfold SceneValidator._check_frame. rewrite E, E'.
    rewrite !with_bbox_app. simpl. rewrite Hnone. reflexivity.
Qed.

Lemma degenerate_excluded_witness :
  degenerate Demo.sliver /\
  get_bbox Demo.sliver = None /\
  forall self final,
    SceneValidator._check_frame (manim := Demo.manim) self
      (Demo.world_of [Demo.label_box; Demo.sliver]) final =
    SceneValidator._check_frame (manim := Demo.manim) self
      (Demo.world_of [Demo.label_box]) final.
Proof.
  assert (Hdeg : degenerate Demo.sliver).
  { right. exists (0, 1), (0, 0). repeat split. left. reflexivity. }
  split; [exact Hdeg|]. split.
  - apply (degenerate_excluded Demo.manim Demo.sliver Hdeg).
  - intros self final.
    apply (degenerate_excluded Demo.manim Demo.sliver Hdeg)
      with (pre := [Demo.label_box]) (post := []); reflexivity.
Defined.

(** ** Frame scan: what a scan changes *)

(** A reflexive and transitive relation that holds across the two loop
    bodies holds across the whole scan. *)
Section ScanRelation.

Context {manim : Manim}.

Import SceneValidator.

Variable R : t -> t -> Prop.
Hypothesis R_refl : forall v, R v v.
Hypothesis R_trans : forall v1 v2 v3, R v1 v2 -> R v2 v3 -> R v1 v3.
Hypothesis R_oob : forall v entry, R v (check_oob v entry).
Hypothesis R_pair : forall entry_i entry_j v, R v (check_pair entry_i entry_j v).

Lemma scan_fold {A : Type} (f : t -> A -> t) (xs : list A) (v : t) :
  (forall v x, R v (f v x)) -> R v (fold_left f xs v).
Proof.
  intros Hf. revert v. induction xs as [|x xs IH]; intros v; simpl.
  - apply R_refl.
  - eapply R_trans; [apply Hf | apply IH].
Qed.

Lemma scan_check_overlaps (entries : list (Mobject * BBox)) (v : t) :
  R v (check_overlaps entries v).
Proof.
  revert v. induction entries as [|e rest IH]; intros v; simpl.
  - apply R_refl.
  - eapply R_trans; [|apply IH].
    apply scan_fold. intros v0 x. apply R_pair.
Qed.

Lemma scan_check_frame (v : t) (scene : World) (final : bool) :
  R v (_check_frame v scene final).
Proof.
  unfold _check_frame.
  eapply R_trans; [|apply scan_check_overlaps].
  apply scan_fold. apply R_oob.
Qed.

End ScanRelation.

Section ScanEffect.

Context {manim : Manim}.

Import SceneValidator.

Lemma filed_refl (v : t) : filed v v.
Proof.
  repeat split. exists []. split; [now rewrite app_nil_r | constructor].
Qed.

Lemma filed_trans (v1 v2 v3 : t) : filed v1 v2 -> filed v2 v3 -> filed v1 v3.
Proof.
  intros (S1 & N1 & C1 & T1 & V1 & new1 & E1 & F1)
         (S2 & N2 & C2 & T2 & V2 & new2 & E2 & F2).
  repeat split; try congruence.
  exists (new1 ++ new2). split.
  - rewrite E2, E1, app_assoc. reflexivity.
  - apply Forall_app. split; [exact F1|].
    rewrite S1, N1 in F2. exact F2.
Qed.

Lemma filed_tracker_add (sev : Severity) (msg : Message) (v : t) :
  filed v (tracker_add sev msg v).
Proof.
  repeat split. exists [mkIssue sev (scene_name v) (step v) msg].
  split; [reflexivity|]. repeat constructor.
Qed.

Lemma filed_check_oob (v : t) (entry : Mobject * BBox) : filed v (check_oob v entry).
Proof.
  destruct entry as [mob [[[l r] b] t0]]. unfold check_oob.
  destruct (is_oob (l, r, b, t0)) as [|x xs]; [apply filed_refl|].
  case_bool_decide; [apply filed_refl|].
  apply (filed_tracker_add ERROR _ (set_reported_oob _ v)).
Qed.

Lemma filed_check_pair (entry_i entry_j : Mobject * BBox) (v : t) :
  filed v (check_pair entry_i entry_j v).
Proof.
  destruct entry_i as [mi bi], entry_j as [mj bj]. unfold check_pair.
  destruct (_is_ancestor mi mj || _is_ancestor mj mi); [apply filed_refl|].
  destruct (overlap_threshold v <? overlap_ratio bi bj); [|apply filed_refl].
  case_bool_decide; [apply filed_refl|].
  apply (filed_tracker_add _ _ (set_reported_overlaps _ v)).
Qed.

Lemma filed_check_frame (v : t) (scene : World) (final : bool) :
  filed v (_check_frame v scene final).
Proof.
  apply scan_check_frame.
  - apply filed_refl.
  - apply filed_trans.
  - apply filed_check_oob.
  - apply filed_check_pair.
Qed.

End ScanEffect.

(** ** Interceptor: one batch *)

Section Batch.

Context {manim : Manim}.

Import SceneValidator.

Lemma bind_unfold {S A B : Type} (m : Py S A) (k : A -> Py S B) (s : S) :
  (m ≫= k) s =
  match m s with
  | (Returned a, s') => k a s'
  | (Raised e, s') => (Raised e, s')
  end.
Proof. reflexivity. Qed.

Lemma for_each_app {S A : Type} (xs ys : list A) (body : A -> Py S unit) (s : S) :
  for_each (xs ++ ys) body s = (for_each xs body ;; for_each ys body) s.
Proof.
  revert s. induction xs as [|x xs IH]; intros s; simpl.
  - reflexivity.
  - rewrite !bind_unfold. destruct (body x s) as [[[]|e] s']; [|reflexivity].
    rewrite IH. reflexivity.
Qed.

Lemma on_scene_validator {A : Type} (code : Py World A) (st : State) :
  validator (snd (on_scene code st)) = validator st.
Proof. unfold on_scene. destruct (code (scene st)). reflexivity. Qed.

Lemma add_if_absent_spec (mob : ObjId) (st : State) :
  exists scene', add_if_absent mob st = (Returned tt, mkState (validator st) scene').
Proof.
  unfold add_if_absent, modify. case_bool_decide.
  - exists (scene st). destruct st. reflexivity.
  - eexists. reflexivity.
Qed.

Lemma bind_validator {A B : Type} (m : Py State A) (k : A -> Py State B) :
  (forall st, validator (snd (m st)) = validator st) ->
  (forall a st, validator (snd (k a st)) = validator st) ->
  forall st, validator (snd ((m ≫= k) st)) = validator st.
Proof.
  intros Hm Hk st. rewrite bind_unfold. specialize (Hm st).
  destruct (m st) as [[a|e] s']; simpl in *; [|exact Hm].
  rewrite Hk. exact Hm.
Qed.

Lemma lifecycle_validator (anim : Animation) (st : State) :
  validator (snd (lifecycle anim st)) = validator st.
Proof.
  unfold lifecycle.
  repeat (apply bind_validator; [apply on_scene_validator | intros _]).
  apply on_scene_validator.
Qed.

(** The [try] of [patched_play] returns whether the lifecycle raised or
    not, in the state the lifecycle left behind. *)
Lemma try_lifecycle (anim : Animation) (st : State) :
  try_except (lifecycle anim) (fun e => mret tt) st =
  (Returned tt, snd (lifecycle anim st)).
Proof.
  unfold try_except. destruct (lifecycle anim st) as [[[]|e] s']; reflexivity.
Qed.

Lemma play_arg_animation (anim : Animation) (mob : ObjId) (st : State) :
  mobject anim = Some mob ->
  play_arg (AnAnimation anim) st =
  (Returned tt,
   snd (add_if_absent mob (snd (lifecycle anim (snd (add_if_absent mob st)))))).
Proof.
  intros Hmob. unfold play_arg. rewrite Hmob. rewrite !bind_unfold.
  destruct (add_if_absent_spec mob st) as (w1 & ->).
  rewrite bind_unfold, try_lifecycle. reflexivity.
Qed.

Lemma play_arg_returns (arg : PlayArg) (st : State) :
  exists scene', play_arg arg st = (Returned tt, mkState (validator st) scene').
Proof.
  destruct arg as [anim|].
  - destruct (mobject anim) as [mob|] eqn:Hmob.
    + rewrite (play_arg_animation anim mob st Hmob).
      destruct (add_if_absent_spec mob st) as (w1 & ->). cbn [snd].
      pose proof (lifecycle_validator anim (mkState (validator st) w1)) as Hv.
      destruct (add_if_absent_spec mob (snd (lifecycle anim (mkState (validator st) w1))))
        as (w2 & ->).
      cbn [snd validator] in *. rewrite Hv. eexists. reflexivity.
    + unfold play_arg. rewrite Hmob. exists (scene st). destruct st. reflexivity.
  - exists (scene st). destruct st. reflexivity.
Qed.

Lemma play_arg_skipped (arg : PlayArg) (st : State) :
  skipped arg -> play_arg arg st = (Returned tt, st).
Proof.
  destruct arg as [anim|]; simpl; [|reflexivity].
  intros ->. reflexivity.
Qed.

Lemma play_args_return (args : list PlayArg) (st : State) :
  exists scene',
    for_each args play_arg st = (Returned tt, mkState (validator st) scene').
Proof.
  revert st. induction args as [|arg args IH]; intros st; simpl.
  - exists (scene st). destruct st. reflexivity.
  - rewrite bind_unfold.
    destruct (play_arg_returns arg st) as (w1 & ->).
    destruct (IH (mkState (validator st) w1)) as (w2 & ->).
    eexists. reflexivity.
Qed.

Lemma play_args_skipped (args : list PlayArg) (st : State) :
  Forall skipped args -> for_each args play_arg st = (Returned tt, st).
Proof.
  induction 1 as [|arg args Harg _ IH]; simpl; [reflexivity|].
  rewrite bind_unfold, (play_arg_skipped arg st Harg). exact IH.
Qed.

Lemma patched_play_unfold (args : list PlayArg) (st : State) :
  patched_play args st =
  let scene' := scene (snd (for_each args play_arg st)) in
  (Returned tt,
   mkState (_check_frame (set_step (step (validator st) + 1) (validator st)) scene' false)
           scene').
Proof.
  unfold patched_play. rewrite bind_unfold.
  destruct (play_args_return args st) as (w & ->). reflexivity.
Qed.

Lemma check_frame_step (v : t) (scene : World) (final : bool) :
  step (_check_frame v scene final) = step v.
Proof. apply (filed_check_frame v scene final). Qed.

Lemma patched_play_step (args : list PlayArg) (st : State) :
  step (validator (snd (patched_play args st))) = S (step (validator st)).
Proof.
  rewrite patched_play_unfold. simpl. rewrite check_frame_step. simpl. lia.
Qed.

End Batch.

(** C10. Every call of [patched_play] returns, with the step one higher
    and one frame scan made at that step on the scene the batch left
    behind; when every argument is passed over (not an animation, or an
    animation without a target, or no argument at all) the scene is left
    as it was. *)
Theorem patched_play_step_and_scan (manim : Manim) (args : list PlayArg)
    (st : SceneValidator.State) :
  exists scene',
    for_each args SceneValidator.play_arg st =
      (Returned tt, SceneValidator.mkState (SceneValidator.validator st) scene') /\
    SceneValidator.patched_play args st =
      (Returned tt,
       SceneValidator.mkState
         (SceneValidator._check_frame
            (SceneValidator.set_step
               (SceneValidator.step (SceneValidator.validator st) + 1)
               (SceneValidator.validator st))
            scene' false)
         scene') /\
    SceneValidator.step (SceneValidator.validator (snd (SceneValidator.patched_play args st)))
      = S (SceneValidator.step (SceneValidator.validator st)) /\
    (Forall skipped args -> scene' = SceneValidator.scene st).
Proof.
  destruct (play_args_return args st) as (w & Hw). exists w.
  split; [exact Hw|]. split; [|split].
  - rewrite patched_play_unfold, Hw. reflexivity.
  - apply patched_play_step.
  - intros Hskip. rewrite (play_args_skipped args st Hskip) in Hw.
    injection Hw as Hw. rewrite Hw. reflexivity.
Qed.

Lemma patched_play_step_and_scan_witness :
  let st := SceneValidator.mkState
              (Demo.validator_for Demo.late (3 # 10))
              (Demo.world_of [Demo.label_box]) in
  let args := [NotAnAnimation;
               AnAnimation (mkAnimation None Demo.failing Demo.failing
                                        (fun _ => Demo.failing) Demo.failing)] in
  Forall skipped args /\
  SceneValidator.scene (snd (SceneValidator.patched_play (manim := Demo.manim) args st))
    = SceneValidator.scene st /\
  SceneValidator.step
    (SceneValidator.validator (snd (SceneValidator.patched_play (manim := Demo.manim) args st)))
    = 1%nat.
Proof.
  intros st args.
  assert (Hskip : Forall skipped args) by (repeat constructor).
  destruct (patched_play_step_and_scan Demo.manim args st) as (w & _ & Hplay & Hstep & Hw).
  split; [exact Hskip|]. split.
  - rewrite Hplay. simpl. exact (Hw Hskip).
  - exact Hstep.
Defined.

(** C7. When the lifecycle of an animation raises, the exception stays
    inside [play_arg]: what the stages did so far is kept, the target is
    put back into the scene if it is missing, the arguments after it are
    processed, and the batch ends with the step increment and the frame
    scan.  No call of [patched_play] raises, and [validate] returns. *)
Theorem failing_animation_is_contained (manim : Manim) (anim : Animation)
    (mob : ObjId) (e : Exn) (pre post : list PlayArg) (st0 : SceneValidator.State) :
  let st1 := snd (for_each pre SceneValidator.play_arg st0) in
  let raised := SceneValidator.lifecycle anim (snd (SceneValidator.add_if_absent mob st1)) in
  mobject anim = Some mob ->
  fst raised = Raised e ->
  let st2 := snd (SceneValidator.add_if_absent mob (snd raised)) in
  let st3 := snd (for_each post SceneValidator.play_arg st2) in
  SceneValidator.play_arg (AnAnimation anim) st1 = (Returned tt, st2) /\
  for_each (pre ++ AnAnimation anim :: post) SceneValidator.play_arg st0
    = (Returned tt, st3) /\
  SceneValidator.patched_play (pre ++ AnAnimation anim :: post) st0 =
    (Returned tt,
     SceneValidator.mkState
       (SceneValidator._check_frame
          (SceneValidator.set_step
             (SceneValidator.step (SceneValidator.validator st0) + 1)
             (SceneValidator.validator st0))
          (SceneValidator.scene st3) false)
       (SceneValidator.scene st3)) /\
  (forall args st, fst (SceneValidator.run_stmt (SPlay args) st) = Returned tt) /\
  (forall self, fst (SceneValidator.validate self) = Returned tt).
Proof.
  intros st1 raised Hmob Hraised st2 st3.
  assert (Hone : SceneValidator.play_arg (AnAnimation anim) st1 = (Returned tt, st2)).
  { apply play_arg_animation, Hmob. }
  assert (Hall : for_each (pre ++ AnAnimation anim :: post) SceneValidator.play_arg st0
                 = (Returned tt, st3)).
  { rewrite for_each_app, bind_unfold.
    destruct (play_args_return pre st0) as (w1 & Hpre).
    assert (Hst1 : st1 = SceneValidator.mkState (SceneValidator.validator st0) w1).
    { unfold st1. rewrite Hpre. reflexivity. }
    rewrite Hpre, <- Hst1. cbn beta iota. cbn [for_each].
    rewrite bind_unfold, Hone.
    destruct (play_args_return post st2) as (w3 & Hpost).
    unfold st3. rewrite Hpost. reflexivity. }
  split; [exact Hone|]. split; [exact Hall|]. split; [|split].
  - rewrite patched_play_unfold, Hall. reflexivity.
  - intros args st. simpl. rewrite patched_play_unfold. reflexivity.
  - intros self. unfold SceneValidator.validate. rewrite bind_unfold.
    unfold try_except.
    destruct (for_each _ SceneValidator.run_stmt _) as [[[]|ex] s']; reflexivity.
Qed.

Lemma failing_animation_is_contained_witness :
  let st0 := SceneValidator.mkState
               (Demo.validator_for Demo.late (3 # 10))
               (Demo.world_of [Demo.label_box]) in
  let batch := [AnAnimation Demo.broken; AnAnimation Demo.still] in
  fst (SceneValidator.lifecycle Demo.broken st0)
    = Raised (mkExn "ValueError" "bad animation") /\
  fst (SceneValidator.patched_play (manim := Demo.manim) batch st0) = Returned tt /\
  mobjects (SceneValidator.scene (snd (SceneValidator.patched_play (manim := Demo.manim) batch st0)))
    = [0%nat; 1%nat] /\
  SceneValidator.step
    (SceneValidator.validator (snd (SceneValidator.patched_play (manim := Demo.manim) batch st0)))
    = 1%nat.
Proof.
  intros st0 batch.
  destruct (failing_animation_is_contained Demo.manim Demo.broken 0%nat
              (mkExn "ValueError" "bad animation") [] [AnAnimation Demo.still] st0
              eq_refl eq_refl) as (_ & _ & Hplay & _ & _).
  simpl app in Hplay. fold batch in Hplay. rewrite Hplay.
  repeat split.
Defined.

(** ** Interceptor: the body of [construct] *)

Section Construct.

Context {manim : Manim}.

Import SceneValidator.

Lemma run_stmts_without_wait (stmts : list Stmt) (st : State) :
  for_each stmts run_stmt st =
  for_each (List.filter (fun stmt => negb (is_wait stmt)) stmts) run_stmt st.
Proof.
  revert st. induction stmts as [|stmt rest IH]; intros st; [reflexivity|].
  destruct stmt as [args|args|code]; cbn [List.filter is_wait negb for_each].
  - rewrite !bind_unfold.
    destruct (run_stmt (SPlay args) st) as [[[]|e] s']; [apply IH | reflexivity].
  - rewrite bind_unfold. apply IH.
  - rewrite !bind_unfold.
    destruct (run_stmt (SOther code) st) as [[[]|e] s']; [apply IH | reflexivity].
Qed.

(** The step after a body is the step before it plus the number of
    [play] calls among the statements that were run. *)
Lemma run_stmts_step (stmts : list Stmt) (st : State) :
  step (validator (snd (for_each stmts run_stmt st))) =
  (step (validator st) + length (List.filter is_play (processed stmts st)))%nat.
Proof.
  revert st. induction stmts as [|stmt rest IH]; intros st.
  - simpl. lia.
  - cbn [for_each processed]. rewrite bind_unfold.
    destruct stmt as [args|args|code].
    + pose proof (patched_play_step args st) as Hs.
      cbn [run_stmt] in *. rewrite patched_play_unfold in *.
      cbn zeta beta iota in *. cbn [snd] in Hs.
      rewrite IH. cbn [List.filter is_play length]. rewrite Hs. lia.
    + cbn [run_stmt patched_wait]. simpl. apply IH.
    + cbn [run_stmt]. pose proof (on_scene_validator code st) as Hv.
      destruct (on_scene code st) as [[[]|e] s'].
      * rewrite IH. cbn [List.filter is_play]. simpl in Hv. rewrite Hv. reflexivity.
      * simpl in *. rewrite Hv. lia.
Qed.

End Construct.

(** C9. [patched_wait] returns at once and leaves the whole state,
    validator and scene, as it found it, whatever its arguments; a
    [construct] body therefore runs the same with its waits taken out. *)
Theorem patched_wait_noop (manim : Manim) :
  (forall args st, SceneValidator.patched_wait args st = (Returned tt, st)) /\
  (forall stmts st,
     for_each stmts SceneValidator.run_stmt st =
     for_each (List.filter (fun stmt => negb (is_wait stmt)) stmts)
              SceneValidator.run_stmt st).
Proof.
  split; [reflexivity|]. apply run_stmts_without_wait.
Qed.

(** C3, as the code has it.  [validate] sets the step to 0; each [play]
    batch that is run raises it by one before its scan, so the findings of
    that scan carry the raised step, whatever the number of animations in
    the batch; the final scan leaves the step alone and files its findings
    under the step of the last batch.  The step after a run is the number
    of [play] batches that were run. *)
Theorem step_counts_play_batches (manim : Manim) (self : SceneValidator.t) :
  let st0 :=
    SceneValidator.mkState
      (SceneValidator.set_reported_oob ∅
         (SceneValidator.set_reported_overlaps ∅ (SceneValidator.set_step 0 self)))
      (new_scene (SceneValidator.scene_class self)) in
  SceneValidator.step (SceneValidator.validator st0) = 0%nat /\
  SceneValidator.step (SceneValidator.validator (snd (SceneValidator.validate self)))
    = length (List.filter is_play
                (processed (construct (SceneValidator.scene_class self)) st0)) /\
  (forall args st,
     let st' := snd (SceneValidator.patched_play args st) in
     SceneValidator.step (SceneValidator.validator st')
       = S (SceneValidator.step (SceneValidator.validator st)) /\
     exists new,
       IssueTracker.issues (SceneValidator.tracker (SceneValidator.validator st'))
         = IssueTracker.issues (SceneValidator.tracker (SceneValidator.validator st)) ++ new /\
       Forall (fun i => issue_step i = S (SceneValidator.step (SceneValidator.validator st)))
              new) /\
  (forall v scene final,
     let v' := SceneValidator._check_frame v scene final in
     SceneValidator.step v' = SceneValidator.step v /\
     exists new,
       IssueTracker.issues (SceneValidator.tracker v')
         = IssueTracker.issues (SceneValidator.tracker v) ++ new /\
       Forall (fun i => issue_step i = SceneValidator.step v) new).
Proof.
  intros st0. split; [reflexivity|]. split; [|split].
  - unfold SceneValidator.validate. rewrite bind_unfold. unfold try_except.
    pose proof (run_stmts_step (construct (SceneValidator.scene_class self)) st0) as Hrun.
    change (SceneValidator.step (SceneValidator.validator st0)) with 0%nat in Hrun.
    simpl Nat.add in Hrun. rewrite <- Hrun. clear Hrun.
    change (for_each (construct _) SceneValidator.run_stmt _)
      with (for_each (construct (SceneValidator.scene_class self))
                     SceneValidator.run_stmt st0).
    destruct (for_each _ SceneValidator.run_stmt st0) as [[[]|e] s'];
      simpl; rewrite check_frame_step; reflexivity.
  - intros args st st'. split; [apply patched_play_step|].
    unfold st'. rewrite patched_play_unfold. cbn zeta. cbn [snd SceneValidator.validator].
    destruct (filed_check_frame
                (SceneValidator.set_step
                   (SceneValidator.step (SceneValidator.validator st) + 1)
                   (SceneValidator.validator st))
                (SceneValidator.scene (snd (for_each args SceneValidator.play_arg st)))
                false)
      as (_ & _ & _ & _ & _ & new & Hnew & Hall).
    exists new. split; [exact Hnew|].
    eapply Forall_impl; [exact Hall|].
    intros i [Hi _]. simpl in Hi. lia.
  - intros v scene final v'.
    destruct (filed_check_frame v scene final) as (Hs & _ & _ & _ & _ & new & Hnew & Hall).
    split; [exact Hs|]. exists new. split; [exact Hnew|].
    eapply Forall_impl; [exact Hall|]. intros i [Hi _]. exact Hi.
Qed.

(** C3 as stated fails: after two [play] batches the step is 2, not 3,
    and the finding of the final scan is filed under step 2. *)
Lemma final_scan_step_counterexample :
  let r := SceneValidator.validate (manim := Demo.manim)
             (Demo.validator_for Demo.late (3 # 10)) in
  length (List.filter is_play (construct Demo.late)) = 2%nat /\
  SceneValidator.step (SceneValidator.validator (snd r)) = 2%nat /\
  SceneValidator.step (SceneValidator.validator (snd r))
    <> S (length (List.filter is_play (construct Demo.late))) /\
  IssueTracker.issues (SceneValidator.tracker (SceneValidator.validator (snd r)))
    = [mkIssue ERROR "Late" 2
         (MsgOOB "Square" "-8.0" "-1.0" "-6.0" "1.0" ["LEFT (x=-8.00 < -7.11)"])].
Proof.
  vm_compute. repeat split; discriminate.
Qed.

(** ** Deduplication *)

Section Dedup.

Context {manim : Manim}.

Import SceneValidator.

Lemma deduplicated_add_oob (base : list Issue) (v : t)
    (label l b r t0 : string) (violations : list string) :
  deduplicated base v ->
  (label, violations) ∉ _reported_oob v ->
  deduplicated base
    (tracker_add ERROR (MsgOOB label l b r t0 violations)
       (set_reported_oob ({[ (label, violations) ]} ∪ _reported_oob v) v)).
Proof.
  intros (new & Hnew & Hnd & Hoob & Hov) Hfresh.
  exists (new ++ [mkIssue ERROR (scene_name v) (step v)
                    (MsgOOB label l b r t0 violations)]).
  simpl. rewrite Hnew, omap_app. simpl.
  split; [now rewrite app_assoc|]. split; [|split].
  - apply NoDup_app. split; [exact Hnd|]. split; [|apply NoDup_singleton].
    intros k Hk Hk'. apply list_elem_of_singleton in Hk'. subst k.
    apply Hoob in Hk. contradiction.
  - intros label' violations'.
    rewrite elem_of_union, elem_of_singleton, elem_of_app, list_elem_of_singleton.
    rewrite Hoob. split; intros [H | H]; [right | left | right | left];
      congruence || exact H.
  - intros labels. rewrite elem_of_app, list_elem_of_singleton, Hov.
    split; [auto|]. intros [H | H]; [exact H | discriminate].
Qed.

Lemma deduplicated_add_overlap (base : list Issue) (v : t)
    (sev : Severity) (pct l1 l2 : string) :
  deduplicated base v ->
  sorted_pair l1 l2 ∉ _reported_overlaps v ->
  deduplicated base
    (tracker_add sev (MsgOverlap pct l1 l2)
       (set_reported_overlaps ({[ sorted_pair l1 l2 ]} ∪ _reported_overlaps v) v)).
Proof.
  intros (new & Hnew & Hnd & Hoob & Hov) Hfresh.
  exists (new ++ [mkIssue sev (scene_name v) (step v) (MsgOverlap pct l1 l2)]).
  simpl. rewrite Hnew, omap_app. simpl.
  split; [now rewrite app_assoc|]. split; [|split].
  - apply NoDup_app. split; [exact Hnd|]. split; [|apply NoDup_singleton].
    intros k Hk Hk'. apply list_elem_of_singleton in Hk'. subst k.
    apply Hov in Hk. contradiction.
  - intros label violations. rewrite elem_of_app, list_elem_of_singleton, Hoob.
    split; [auto|]. intros [H | H]; [exact H | discriminate].
  - intros labels.
    rewrite elem_of_union, elem_of_singleton, elem_of_app, list_elem_of_singleton.
    rewrite Hov. split; intros [H | H]; [right | left | right | left];
      congruence || exact H.
Qed.

Lemma deduplicated_check_oob (base : list Issue) (v : t) (entry : Mobject * BBox) :
  deduplicated base v -> deduplicated base (check_oob v entry).
Proof.
  intros Hv. destruct entry as [mob [[[l r] b] t0]]. unfold check_oob.
  destruct (is_oob (l, r, b, t0)) as [|x xs]; [exact Hv|].
  case_bool_decide; [exact Hv|].
  now apply deduplicated_add_oob.
Qed.

Lemma deduplicated_check_pair (base : list Issue) (entry_i entry_j : Mobject * BBox) (v : t) :
  deduplicated base v -> deduplicated base (check_pair entry_i entry_j v).
Proof.
  intros Hv. destruct entry_i as [mi bi], entry_j as [mj bj]. unfold check_pair.
  destruct (_is_ancestor mi mj || _is_ancestor mj mi); [exact Hv|].
  destruct (overlap_threshold v <? overlap_ratio bi bj); [|exact Hv].
  case_bool_decide; [exact Hv|].
  now apply deduplicated_add_overlap.
Qed.

Lemma deduplicated_check_frame (base : list Issue) (v : t) (scene : World) (final : bool) :
  deduplicated base v -> deduplicated base (_check_frame v scene final).
Proof.
  apply (scan_check_frame (fun v v' => deduplicated base v -> deduplicated base v')).
  - auto.
  - auto.
  - intros v0 entry. apply deduplicated_check_oob.
  - intros ei ej v0. apply deduplicated_check_pair.
Qed.

Lemma deduplicated_set_step (base : list Issue) (n : nat) (v : t) :
  deduplicated base v -> deduplicated base (set_step n v).
Proof. intros H. exact H. Qed.

Lemma deduplicated_construct_error (base : list Issue) (name text : string) (v : t) :
  deduplicated base v ->
  deduplicated base (tracker_add ERROR (MsgConstruct name text) v).
Proof.
  intros (new & Hnew & Hnd & Hoob & Hov).
  exists (new ++ [mkIssue ERROR (scene_name v) (step v) (MsgConstruct name text)]).
  simpl. rewrite Hnew, omap_app. simpl. rewrite app_nil_r.
  split; [now rewrite app_assoc|]. auto.
Qed.

Lemma deduplicated_run_stmt (base : list Issue) (stmt : Stmt) (st : State) :
  deduplicated base (validator st) ->
  deduplicated base (validator (snd (run_stmt stmt st))).
Proof.
  intros Hv. destruct stmt as [args|args|code]; cbn [run_stmt].
  - rewrite patched_play_unfold. cbn zeta. cbn [snd validator].
    apply deduplicated_check_frame, deduplicated_set_step, Hv.
  - exact Hv.
  - rewrite on_scene_validator. exact Hv.
Qed.

Lemma deduplicated_run_stmts (base : list Issue) (stmts : list Stmt) (st : State) :
  deduplicated base (validator st) ->
  deduplicated base (validator (snd (for_each stmts run_stmt st))).
Proof.
  revert st. induction stmts as [|stmt rest IH]; intros st Hv; [exact Hv|].
  cbn [for_each]. rewrite bind_unfold.
  pose proof (deduplicated_run_stmt base stmt st Hv) as Hstmt.
  destruct (run_stmt stmt st) as [[[]|e] s']; [apply IH|]; exact Hstmt.
Qed.

Lemma deduplicated_validate (v : t) :
  deduplicated (IssueTracker.issues (tracker v)) (validator (snd (validate v))).
Proof.
  unfold validate. rewrite bind_unfold. unfold try_except.
  set (st0 := mkState _ _).
  assert (H0 : deduplicated (IssueTracker.issues (tracker v)) (validator st0)).
  { exists []. simpl. rewrite app_nil_r. split; [reflexivity|].
    split; [constructor|]. split; intros; rewrite elem_of_nil; set_solver. }
  pose proof (deduplicated_run_stmts _ (construct (scene_class v)) st0 H0) as Hrun.
  change (construct (scene_class (set_reported_oob ∅ (set_reported_overlaps ∅ (set_step 0 v)))))
    with (construct (scene_class v)).
  destruct (for_each (construct (scene_class v)) run_stmt st0) as [[[]|e] s'];
    simpl in *.
  - apply deduplicated_check_frame, Hrun.
  - apply deduplicated_check_frame, deduplicated_construct_error, Hrun.
Qed.

End Dedup.

Section Kept.

Context {manim : Manim}.

Import SceneValidator.

Lemma kept_refl (v : t) : kept v v.
Proof. split; reflexivity. Qed.

Lemma kept_trans (v1 v2 v3 : t) : kept v1 v2 -> kept v2 v3 -> kept v1 v3.
Proof. intros [H1 H2] [H3 H4]. split; etransitivity; eassumption. Qed.

Lemma kept_check_oob (v : t) (entry : Mobject * BBox) : kept v (check_oob v entry).
Proof.
  destruct entry as [mob [[[l r] b] t0]]. unfold check_oob.
  destruct (is_oob (l, r, b, t0)) as [|x xs]; [apply kept_refl|].
  case_bool_decide; [apply kept_refl|].
  split; simpl; set_solver.
Qed.

Lemma kept_check_pair (entry_i entry_j : Mobject * BBox) (v : t) :
  kept v (check_pair entry_i entry_j v).
Proof.
  destruct entry_i as [mi bi], entry_j as [mj bj]. unfold check_pair.
  destruct (_is_ancestor mi mj || _is_ancestor mj mi); [apply kept_refl|].
  destruct (overlap_threshold v <? overlap_ratio bi bj); [|apply kept_refl].
  case_bool_decide; [apply kept_refl|].
  split; simpl; set_solver.
Qed.

Lemma kept_check_frame (v : t) (scene : World) (final : bool) :
  kept v (_check_frame v scene final).
Proof.
  apply scan_check_frame.
  - apply kept_refl.
  - apply kept_trans.
  - apply kept_check_oob.
  - apply kept_check_pair.
Qed.

Lemma kept_run_stmt (stmt : Stmt) (st : State) :
  kept (validator st) (validator (snd (run_stmt stmt st))).
Proof.
  destruct stmt as [args|args|code]; cbn [run_stmt].
  - rewrite patched_play_unfold. cbn zeta. cbn [snd validator].
    apply (kept_check_frame (set_step _ (validator st))).
  - apply kept_refl.
  - rewrite on_scene_validator. apply kept_refl.
Qed.

Lemma kept_run_stmts (stmts : list Stmt) (st : State) :
  kept (validator st) (validator (snd (for_each stmts run_stmt st))).
Proof.
  revert st. induction stmts as [|stmt rest IH]; intros st; [apply kept_refl|].
  cbn [for_each]. rewrite bind_unfold.
  pose proof (kept_run_stmt stmt st) as Hstmt.
  destruct (run_stmt stmt st) as [[[]|e] s']; [|exact Hstmt].
  eapply kept_trans; [exact Hstmt | apply IH].
Qed.

Lemma check_oob_reports (v : t) (mob : Mobject) (bbox : BBox) :
  is_oob bbox <> [] ->
  (mob_label mob, is_oob bbox) ∈ _reported_oob (check_oob v (mob, bbox)) /\
  ((mob_label mob, is_oob bbox) ∈ _reported_oob v -> check_oob v (mob, bbox) = v).
Proof.
  intros Hviol. unfold check_oob.
  destruct (is_oob bbox) as [|x xs] eqn:E; [congruence|].
  case_bool_decide as Hin.
  - split; [exact Hin | reflexivity].
  - split; [|contradiction]. destruct bbox as [[[l r] b] t0]. simpl. set_solver.
Qed.

Lemma check_pair_reports (v : t) (mob_i mob_j : Mobject) (bbox_i bbox_j : BBox) :
  _is_ancestor mob_i mob_j = false ->
  _is_ancestor mob_j mob_i = false ->
  overlap_threshold v < overlap_ratio bbox_i bbox_j ->
  sorted_pair (mob_label mob_i) (mob_label mob_j)
    ∈ _reported_overlaps (check_pair (mob_i, bbox_i) (mob_j, bbox_j) v) /\
  (sorted_pair (mob_label mob_i) (mob_label mob_j) ∈ _reported_overlaps v ->
   check_pair (mob_i, bbox_i) (mob_j, bbox_j) v = v).
Proof.
  intros Hij Hji Hratio. apply Qltb_lt in Hratio.
  unfold check_pair. rewrite Hij, Hji, Hratio. simpl.
  case_bool_decide as Hin.
  - split; [exact Hin | reflexivity].
  - split; [|contradiction]. simpl. set_solver.
Qed.

End Kept.

(** C1, as the code has it.  The OOB key is the label with the tuple of
    violation texts, each of which names the edge and its coordinate to
    two decimals; the overlap key is the sorted pair of labels.  A run of
    [validate] files no two findings under one key, and the two
    [_reported_*] sets hold exactly the keys filed; whatever statements
    follow, a reported key stays reported, so it keeps its one issue; a
    finding whose key is reported changes nothing, and a finding whose
    key is new gets reported.  For an overlap the boxes play no part in
    the key. *)
Theorem findings_deduplicated (manim : Manim) :
  (forall v,
     deduplicated (IssueTracker.issues (SceneValidator.tracker v))
                  (SceneValidator.validator (snd (SceneValidator.validate v)))) /\
  (forall base stmts st,
     deduplicated base (SceneValidator.validator st) ->
     let v' := SceneValidator.validator (snd (for_each stmts SceneValidator.run_stmt st)) in
     deduplicated base v' /\ kept (SceneValidator.validator st) v') /\
  (forall v mob bbox,
     is_oob bbox <> [] ->
     (mob_label mob, is_oob bbox)
       ∈ SceneValidator._reported_oob (SceneValidator.check_oob v (mob, bbox)) /\
     ((mob_label mob, is_oob bbox) ∈ SceneValidator._reported_oob v ->
      SceneValidator.check_oob v (mob, bbox) = v)) /\
  (forall v mob_i mob_j bbox_i bbox_j,
     SceneValidator._is_ancestor mob_i mob_j = false ->
     SceneValidator._is_ancestor mob_j mob_i = false ->
     SceneValidator.overlap_threshold v < overlap_ratio bbox_i bbox_j ->
     sorted_pair (mob_label mob_i) (mob_label mob_j)
       ∈ SceneValidator._reported_overlaps
           (SceneValidator.check_pair (mob_i, bbox_i) (mob_j, bbox_j) v) /\
     (sorted_pair (mob_label mob_i) (mob_label mob_j)
        ∈ SceneValidator._reported_overlaps v ->
      SceneValidator.check_pair (mob_i, bbox_i) (mob_j, bbox_j) v = v)).
Proof.
  split; [apply deduplicated_validate|]. split; [|split].
  - intros base stmts st Hv v'. split.
    + apply deduplicated_run_stmts, Hv.
    + apply kept_run_stmts.
  - intros v mob bbox. apply check_oob_reports.
  - intros v mob_i mob_j bbox_i bbox_j. apply check_pair_reports.
Qed.

Lemma findings_deduplicated_witness :
  let v := Demo.validator_for Demo.drifting (3 # 10) in
  let square := Demo.shape 0 "Square" (-8, -6, -1, 1) in
  let circle := Demo.shape 1 "Circle" (-8, -6, -1, 1) in
  let v1 := SceneValidator.check_oob (manim := Demo.manim) v (square, (-8, -6, -1, 1)) in
  let v2 := SceneValidator.check_pair (square, (0, 2, 0, 1)) (circle, (0, 2, 0, 1)) v1 in
  SceneValidator.check_oob (manim := Demo.manim) v1 (square, (-8, -6, -1, 1)) = v1 /\
  SceneValidator.check_pair (circle, (5, 6, 5, 6)) (square, (5, 6, 5, 6)) v2 = v2.
Proof.
  intros v square circle v1 v2.
  destruct (findings_deduplicated Demo.manim) as (_ & _ & Hoob & Hpair).
  assert (Hviol : is_oob (manim := Demo.manim) (-8, -6, -1, 1) <> [])
    by (vm_compute; discriminate).
  split.
  - apply (Hoob v1 square _ Hviol).
    apply (Hoob v square _ Hviol).
  - apply (Hpair v2 circle square (5, 6, 5, 6) (5, 6, 5, 6));
      [reflexivity | reflexivity | reflexivity |].
    apply (Hpair v1 square circle (0, 2, 0, 1) (0, 2, 0, 1)); reflexivity.
Defined.

(** C1 as stated fails for OOB findings: one label, the same violated
    edge at both steps, a different coordinate, and two issues. *)
Lemma oob_key_has_coordinates_counterexample :
  let r := SceneValidator.validate (manim := Demo.manim)
             (Demo.validator_for Demo.drifting (3 # 10)) in
  let first := Demo.shape 0 "Square" (-8, -6, -1, 1) in
  let second := Demo.shape 0 "Square" (-9, -7, -1, 1) in
  mob_label first = mob_label second /\
  violated_edges (manim := Demo.manim) (-8, -6, -1, 1) = [LEFT] /\
  violated_edges (manim := Demo.manim) (-9, -7, -1, 1) = [LEFT] /\
  IssueTracker.issues (SceneValidator.tracker (SceneValidator.validator (snd r)))
    = [mkIssue ERROR "Drifting" 1
         (MsgOOB "Square" "-8.0" "-1.0" "-6.0" "1.0" ["LEFT (x=-8.00 < -7.11)"]);
       mkIssue ERROR "Drifting" 2
         (MsgOOB "Square" "-9.0" "-1.0" "-7.0" "1.0" ["LEFT (x=-9.00 < -7.11)"])].
Proof.
  vm_compute. repeat split.
Qed.

(** ** Severity *)

(** C2, as the code has it.  For a scanned pair not related by ancestry:
    a ratio at or below the threshold files nothing, also when it is above
    0.6; above the threshold and under a key not yet reported, the pair
    files one issue, ERROR when the ratio is above 0.6 and WARN
    otherwise.  An element with a violated edge, under a key not yet
    reported, files one ERROR. *)
Theorem severity_rule (manim : Manim) (v : SceneValidator.t) :
  (forall mob_i mob_j bbox_i bbox_j,
     let ratio := overlap_ratio bbox_i bbox_j in
     let l1 := mob_label mob_i in
     let l2 := mob_label mob_j in
     let v' := SceneValidator.check_pair (mob_i, bbox_i) (mob_j, bbox_j) v in
     let filed_as severity :=
       IssueTracker.issues (SceneValidator.tracker v')
       = IssueTracker.issues (SceneValidator.tracker v) ++
         [mkIssue severity (SceneValidator.scene_name v) (SceneValidator.step v)
                  (MsgOverlap (format_percent ratio) l1 l2)] in
     SceneValidator._is_ancestor mob_i mob_j = false ->
     SceneValidator._is_ancestor mob_j mob_i = false ->
     (ratio <= SceneValidator.overlap_threshold v -> v' = v) /\
     (sorted_pair l1 l2 ∉ SceneValidator._reported_overlaps v ->
      SceneValidator.overlap_threshold v < ratio ->
      (6 # 10 < ratio -> filed_as ERROR) /\
      (ratio <= 6 # 10 -> filed_as WARN))) /\
  (forall mob l r b t,
     let bbox : BBox := (l, r, b, t) in
     is_oob bbox <> [] ->
     (mob_label mob, is_oob bbox) ∉ SceneValidator._reported_oob v ->
     IssueTracker.issues
       (SceneValidator.tracker (SceneValidator.check_oob v (mob, bbox)))
     = IssueTracker.issues (SceneValidator.tracker v) ++
       [mkIssue ERROR (SceneValidator.scene_name v) (SceneValidator.step v)
          (MsgOOB (mob_label mob) (format_fixed 1 l) (format_fixed 1 b)
                  (format_fixed 1 r) (format_fixed 1 t) (is_oob bbox))]).
Proof.
  split.
  - intros mob_i mob_j bbox_i bbox_j ratio l1 l2 v' filed_as Hij Hji.
    unfold filed_as, v', SceneValidator.check_pair. rewrite Hij, Hji. simpl.
    fold ratio l1 l2. split.
    + intros Hle. apply Qltb_ge in Hle. rewrite Hle. reflexivity.
    + intros Hfresh Hgt. apply Qltb_lt in Hgt. rewrite Hgt.
      case_bool_decide; [contradiction|]. split.
      * intros Hhigh. apply Qltb_lt in Hhigh. rewrite Hhigh. reflexivity.
      * intros Hlow. apply Qltb_ge in Hlow. rewrite Hlow. reflexivity.
  - intros mob l r b t0 bbox Hviol Hfresh. unfold SceneValidator.check_oob.
    destruct (is_oob bbox) as [|x xs] eqn:E; [congruence|].
    case_bool_decide; [contradiction|]. reflexivity.
Qed.

Lemma severity_rule_witness :
  let v := Demo.validator_for Demo.covered (3 # 10) in
  let square := Demo.shape 0 "Square" (0, 5, 0, 1) in
  let circle := Demo.shape 1 "Circle" (3 # 2, 13 # 2, 0, 1) in
  let bar := Demo.shape 2 "Line" (- (5 # 2), 5 # 2, 0, 1) in
  IssueTracker.issues
    (SceneValidator.tracker
       (SceneValidator.check_pair (square, (0, 5, 0, 1)) (circle, (3 # 2, 13 # 2, 0, 1)) v))
    = [mkIssue ERROR "Covered" 0 (MsgOverlap "70%" "Square" "Circle")] /\
  IssueTracker.issues
    (SceneValidator.tracker
       (SceneValidator.check_pair (square, (0, 5, 0, 1)) (bar, (- (5 # 2), 5 # 2, 0, 1)) v))
    = [mkIssue WARN "Covered" 0 (MsgOverlap "50%" "Square" "Line")] /\
  SceneValidator.check_pair (square, (0, 5, 0, 1)) (bar, (-4, 1, 0, 1)) v = v /\
  IssueTracker.issues
    (SceneValidator.tracker
       (SceneValidator.check_oob (manim := Demo.manim) v (square, (-8, -6, -1, 1))))
    = [mkIssue ERROR "Covered" 0
         (MsgOOB "Square" "-8.0" "-1.0" "-6.0" "1.0" ["LEFT (x=-8.00 < -7.11)"])].
Proof.
  intros v square circle bar.
  destruct (severity_rule Demo.manim v) as [Hpair Hoob].
  split; [|split; [|split]].
  - apply (Hpair square circle (0, 5, 0, 1) (3 # 2, 13 # 2, 0, 1));
      try reflexivity. vm_compute. set_solver.
  - apply (Hpair square bar (0, 5, 0, 1) (- (5 # 2), 5 # 2, 0, 1));
      try reflexivity.
    + vm_compute. set_solver.
    + vm_compute. discriminate.
  - apply (Hpair square bar (0, 5, 0, 1) (-4, 1, 0, 1));
      try reflexivity. vm_compute. discriminate.
  - apply (Hoob square (-8) (-6) (-1) 1).
    + vm_compute. discriminate.
    + vm_compute. set_solver.
Defined.

(** C2 as stated fails: with the threshold at 0.9 a pair at ratio 0.7,
    above 0.6, files nothing. *)
Lemma threshold_gates_error_counterexample :
  let r := SceneValidator.validate (manim := Demo.manim)
             (Demo.validator_for Demo.covered (9 # 10)) in
  overlap_ratio (0, 5, 0, 1) (3 # 2, 13 # 2, 0, 1) == 7 # 10 /\
  6 # 10 < overlap_ratio (0, 5, 0, 1) (3 # 2, 13 # 2, 0, 1) /\
  SceneValidator._is_ancestor (Demo.shape 0 "Square" (0, 5, 0, 1))
                              (Demo.shape 1 "Circle" (3 # 2, 13 # 2, 0, 1)) = false /\
  SceneValidator._is_ancestor (Demo.shape 1 "Circle" (3 # 2, 13 # 2, 0, 1))
                              (Demo.shape 0 "Square" (0, 5, 0, 1)) = false /\
  IssueTracker.issues (SceneValidator.tracker (SceneValidator.validator (snd r))) = [].
Proof.
  cbv zeta. split; [reflexivity|]. split; [reflexivity|].
  split; [reflexivity|]. split; [reflexivity|]. vm_compute. reflexivity.
Qed.

(** ** Issue tracker and verdict *)

(** The tracker after a sequence of [add] calls. *)
Lemma issues_after_adds (adds : list Issue) (tr : IssueTracker.t) :
  IssueTracker.issues
    (fold_left
       (fun tr i =>
          IssueTracker.add tr (issue_severity i) (issue_scene i) (issue_step i) (issue_msg i))
       adds tr)
  = IssueTracker.issues tr ++ adds.
Proof.
  revert tr. induction adds as [|i adds IH]; intros tr; simpl.
  - now rewrite app_nil_r.
  - rewrite IH. unfold IssueTracker.add. simpl.
    destruct i. simpl. now rewrite <- app_assoc.
Qed.

(** A run of [validate] only appends to the tracker. *)
Lemma validate_appends {manim : Manim} (v : SceneValidator.t) :
  exists new,
    IssueTracker.issues
      (SceneValidator.tracker (SceneValidator.validator (snd (SceneValidator.validate v))))
    = IssueTracker.issues (SceneValidator.tracker v) ++ new.
Proof.
  destruct (deduplicated_validate v) as (new & Hnew & _). exists new. exact Hnew.
Qed.


(** C8. [report] returns true exactly when the tracker holds no issue;
    [add] appends its issue whether or not an equal one is there already,
    so after any sequence of [add] calls on a new tracker the tracker
    holds all of them in order, and [report] returns true exactly when
    there was no call.  Validating a scene only appends to the tracker it
    shares with the scenes before it. *)
Theorem report_iff_no_issue :
  (forall tr, IssueTracker.report tr = true <-> IssueTracker.issues tr = []) /\
  (forall tr severity scene_name step msg,
     IssueTracker.issues (IssueTracker.add tr severity scene_name step msg)
       = IssueTracker.issues tr ++ [mkIssue severity scene_name step msg] /\
     IssueTracker.report (IssueTracker.add tr severity scene_name step msg) = false) /\
  (forall adds : list Issue,
     let tr :=
       fold_left
         (fun tr i =>
            IssueTracker.add tr (issue_severity i) (issue_scene i) (issue_step i) (issue_msg i))
         adds IssueTracker.__init__ in
     IssueTracker.issues tr = adds /\
     (IssueTracker.report tr = true <-> adds = [])) /\
  (forall (manim : Manim) (v : SceneValidator.t),
     exists new,
       IssueTracker.issues
         (SceneValidator.tracker (SceneValidator.validator (snd (SceneValidator.validate v))))
       = IssueTracker.issues (SceneValidator.tracker v) ++ new) /\
  (forall (manim : Manim) scene_classes sc threshold verbose,
     exists new,
       IssueTracker.issues (validate_all (scene_classes ++ [sc]) threshold verbose)
       = IssueTracker.issues (validate_all scene_classes threshold verbose) ++ new).
Proof.
  assert (Hrep : forall tr, IssueTracker.report tr = true <-> IssueTracker.issues tr = []).
  { intros [l]. unfold IssueTracker.report. simpl.
    destruct l; split; congruence. }
  split; [exact Hrep|]. split; [|split; [|split]].
  - intros tr severity scene_name step msg. split; [reflexivity|].
    unfold IssueTracker.report, IssueTracker.add. simpl.
    destruct (IssueTracker.issues tr); reflexivity.
  - intros adds tr.
    assert (Hall : IssueTracker.issues tr = adds).
    { unfold tr. rewrite issues_after_adds. reflexivity. }
    split; [exact Hall|]. rewrite Hrep, Hall. reflexivity.
  - intros manim v. apply validate_appends.
  - intros manim scene_classes sc threshold verbose.
    unfold validate_all. rewrite fold_left_app. simpl.
    apply (validate_appends (SceneValidator.__init__ sc _ threshold verbose)).
Qed.

(** * Further properties of the code *)

(** ** Geometry *)

Lemma Qltb_compat (x x' y y' : Q) : x == x' -> y == y' -> (x <? y) = (x' <? y').
Proof.
  intros Hx Hy.
  destruct (x <? y) eqn:E, (x' <? y') eqn:E'; try reflexivity.
  - apply Qltb_lt in E. apply Qltb_ge in E'. rewrite Hx, Hy in E. lra.
  - apply Qltb_ge in E. apply Qltb_lt in E'. rewrite Hx, Hy in E. lra.
Qed.

(** X1. [is_oob] reports nothing exactly when the box lies within the
    frame widened by the tolerance on every side, the bounds included; it
    never reports more than four violations. *)
Theorem is_oob_empty_iff (manim : Manim) (l r b t : Q) :
  (is_oob (l, r, b, t) = [] <->
     - HALF_W - EDGE_TOL <= l /\ r <= HALF_W + EDGE_TOL /\
     - HALF_H - EDGE_TOL <= b /\ t <= HALF_H + EDGE_TOL) /\
  (length (is_oob (l, r, b, t)) <= 4)%nat /\
  length (is_oob (l, r, b, t)) = length (violated_edges (l, r, b, t)).
Proof.
  unfold is_oob, violated_edges.
  destruct (l <? - HALF_W - EDGE_TOL) eqn:E1;
  destruct (HALF_W + EDGE_TOL <? r) eqn:E2;
  destruct (b <? - HALF_H - EDGE_TOL) eqn:E3;
  destruct (HALF_H + EDGE_TOL <? t) eqn:E4;
  (split; [|split; [simpl; lia | reflexivity]]);
  repeat match goal with
         | H : (_ <? _) = true |- _ => apply Qltb_lt in H
         | H : (_ <? _) = false |- _ => apply Qltb_ge in H
         end;
  simpl; (split; [intros H; try discriminate H; repeat split; assumption
                 | intros (H1 & H2 & H3 & H4); try reflexivity; exfalso; lra]).
Qed.


Lemma bbox_area_compat (l r b t l' r' b' t' : Q) :
  l == l' -> r == r' -> b == b' -> t == t' ->
  bbox_area (l, r, b, t) == bbox_area (l', r', b', t').
Proof.
  intros Hl Hr Hb Ht. simpl. rewrite Hl, Hr, Hb, Ht. reflexivity.
Qed.

(** X3. The overlap ratio does not depend on the order of the two boxes. *)
Theorem overlap_ratio_sym (b1 b2 : BBox) :
  overlap_ratio b1 b2 == overlap_ratio b2 b1.
Proof.
  destruct b1 as [[[l1 r1] bo1] t1], b2 as [[[l2 r2] bo2] t2].
  unfold overlap_ratio, bbox_intersection.
  rewrite (Qltb_compat (Qmax l2 l1) (Qmax l1 l2) (Qmin r2 r1) (Qmin r1 r2))
    by (apply Q.max_comm || apply Q.min_comm).
  rewrite (Qltb_compat (Qmax bo2 bo1) (Qmax bo1 bo2) (Qmin t2 t1) (Qmin t1 t2))
    by (apply Q.max_comm || apply Q.min_comm).
  destruct ((Qmax l1 l2 <? Qmin r1 r2) && (Qmax bo1 bo2 <? Qmin t1 t2));
    [|reflexivity].
  rewrite (Qltb_compat
             (Qmin (bbox_area (l2, r2, bo2, t2)) (bbox_area (l1, r1, bo1, t1)))
             (Qmin (bbox_area (l1, r1, bo1, t1)) (bbox_area (l2, r2, bo2, t2)))
             (1 # 1000000) (1 # 1000000))
    by (apply Q.min_comm || reflexivity).
  destruct (Qmin (bbox_area (l1, r1, bo1, t1)) (bbox_area (l2, r2, bo2, t2))
            <? 1 # 1000000); [reflexivity|].
  rewrite (bbox_area_compat (Qmax l2 l1) (Qmin r2 r1) (Qmax bo2 bo1) (Qmin t2 t1)
             (Qmax l1 l2) (Qmin r1 r2) (Qmax bo1 bo2) (Qmin t1 t2))
    by (apply Q.max_comm || apply Q.min_comm).
  rewrite (Q.min_comm (bbox_area (l2, r2, bo2, t2))). reflexivity.
Qed.

(** X4. A box of area at least [1e-6] that lies within another box has
    overlap ratio 1 with it, in either order, whatever the size of the
    enclosing box. *)
Theorem overlap_ratio_contained (l1 r1 bo1 t1 l2 r2 bo2 t2 : Q) :
  l2 <= l1 -> r1 <= r2 -> bo2 <= bo1 -> t1 <= t2 ->
  l1 < r1 -> bo1 < t1 ->
  1 # 1000000 <= (r1 - l1) * (t1 - bo1) ->
  overlap_ratio (l1, r1, bo1, t1) (l2, r2, bo2, t2) == 1 /\
  overlap_ratio (l2, r2, bo2, t2) (l1, r1, bo1, t1) == 1.
Proof.
  intros Hl Hr Hb Ht Hw Hh Harea.
  assert (H12 : overlap_ratio (l1, r1, bo1, t1) (l2, r2, bo2, t2) == 1).
  { pose proof (Q.max_l l1 l2 Hl) as El. pose proof (Q.min_l r1 r2 Hr) as Er.
    pose proof (Q.max_l bo1 bo2 Hb) as Eb. pose proof (Q.min_l t1 t2 Ht) as Et.
    unfold overlap_ratio, bbox_intersection.
    rewrite (Qltb_compat _ l1 _ r1 El Er), (Qltb_compat _ bo1 _ t1 Eb Et).
    apply Qltb_lt in Hw as Hw', Hh as Hh'. rewrite Hw', Hh'. simpl andb. cbv iota.
    assert (A1 : bbox_area (l1, r1, bo1, t1) == (r1 - l1) * (t1 - bo1)).
    { simpl. rewrite !Qmax_0_pos by lra. reflexivity. }
    assert (A2 : bbox_area (l1, r1, bo1, t1) <= bbox_area (l2, r2, bo2, t2)).
    { simpl. rewrite !Qmax_0_pos by lra. nra. }
    assert (Amin : Qmin (bbox_area (l1, r1, bo1, t1)) (bbox_area (l2, r2, bo2, t2))
                   == (r1 - l1) * (t1 - bo1)).
    { rewrite (Q.min_l _ _ A2). exact A1. }
    rewrite (Qltb_compat _ ((r1 - l1) * (t1 - bo1)) _ (1 # 1000000) Amin (Qeq_refl _)).
    apply Qltb_ge in Harea. rewrite Harea.
    rewrite (bbox_area_compat _ _ _ _ l1 r1 bo1 t1 El Er Eb Et), Amin, A1.
    apply Qltb_ge in Harea. field. lra. }
  split; [exact H12|]. rewrite overlap_ratio_sym. exact H12.
Qed.

Lemma overlap_ratio_contained_witness :
  overlap_ratio (0, 1, 0, 1) (-1, 5, -1, 3) == 1 /\
  overlap_ratio (-1, 5, -1, 3) (0, 1, 0, 1) == 1.
Proof.
  apply (overlap_ratio_contained 0 1 0 1 (-1) 5 (-1) 3); vm_compute; discriminate || reflexivity.
Defined.

(** X5. A box that [get_bbox] returns is spanned by the two corners of a
    mobject that has points or children, it is at least [1e-5] wide and
    high, and its area is its width times its height, which is positive. *)
Theorem get_bbox_well_formed (mob : Mobject) (l r b t : Q) :
  get_bbox mob = Some (l, r, b, t) ->
  corner_UL mob = Some (l, t) /\ corner_DR mob = Some (r, b) /\
  (has_points mob = true \/ submobjects mob <> []) /\
  1 # 100000 <= r - l /\ 1 # 100000 <= t - b /\
  bbox_area (l, r, b, t) == (r - l) * (t - b) /\
  0 < bbox_area (l, r, b, t).
Proof.
  unfold get_bbox.
  destruct (has_points mob) eqn:Hp; simpl negb; simpl andb.
  - destruct (corner_UL mob) as [[ulx uly]|]; [|discriminate].
    destruct (corner_DR mob) as [[drx dry]|]; [|discriminate]. simpl.
    destruct (drx - ulx <? 1 # 100000) eqn:Ew; [discriminate|].
    destruct (uly - dry <? 1 # 100000) eqn:Eh; [discriminate|]. simpl.
    intros [= <- <- <- <-]. apply Qltb_ge in Ew, Eh.
    assert (A : bbox_area (ulx, drx, dry, uly) == (drx - ulx) * (uly - dry)).
    { simpl. rewrite !Qmax_0_pos by lra. reflexivity. }
    repeat split; auto. rewrite A. nra.
  - case_bool_decide as Hs; [discriminate|].
    destruct (corner_UL mob) as [[ulx uly]|]; [|discriminate].
    destruct (corner_DR mob) as [[drx dry]|]; [|discriminate]. simpl.
    destruct (drx - ulx <? 1 # 100000) eqn:Ew; [discriminate|].
    destruct (uly - dry <? 1 # 100000) eqn:Eh; [discriminate|]. simpl.
    intros [= <- <- <- <-]. apply Qltb_ge in Ew, Eh.
    assert (A : bbox_area (ulx, drx, dry, uly) == (drx - ulx) * (uly - dry)).
    { simpl. rewrite !Qmax_0_pos by lra. reflexivity. }
    repeat split; auto. rewrite A. nra.
Qed.

Lemma get_bbox_well_formed_witness :
  corner_UL Demo.label_box = Some (0, 1) /\ 0 < bbox_area (0, 1, 0, 1).
Proof.
  destruct (get_bbox_well_formed Demo.label_box 0 1 0 1 eq_refl)
    as (Hul & _ & _ & _ & _ & _ & Hpos).
  split; assumption.
Defined.

(** ** Overlap keys *)

Lemma sorted_pair_sym (l1 l2 : string) : sorted_pair l1 l2 = sorted_pair l2 l1.
Proof.
  unfold sorted_pair, String.ltb. rewrite (String.compare_antisym l1 l2).
  destruct (String.compare l2 l1) eqn:E; simpl; try reflexivity.
  apply String.compare_eq_iff in E. subst. reflexivity.
Qed.

(** X6. The overlap key does not depend on the order of the two labels,
    so once an overlap is reported for two labels the overlap loop files
    nothing for a pair with these labels, in either order and at any
    boxes. *)
Theorem overlap_key_symmetric (v : SceneValidator.t) (a b : Mobject)
    (bbox_a bbox_b : BBox) :
  sorted_pair (mob_label a) (mob_label b) = sorted_pair (mob_label b) (mob_label a) /\
  (sorted_pair (mob_label a) (mob_label b) ∈ SceneValidator._reported_overlaps v ->
   SceneValidator.check_pair (a, bbox_a) (b, bbox_b) v = v /\
   SceneValidator.check_pair (b, bbox_b) (a, bbox_a) v = v).
Proof.
  split; [apply sorted_pair_sym|]. intros Hin.
  unfold SceneValidator.check_pair. rewrite <- (sorted_pair_sym (mob_label a)).
  split.
  - destruct (_ || _); [reflexivity|]. destruct (_ <? _); [|reflexivity].
    case_bool_decide; [reflexivity | contradiction].
  - destruct (_ || _); [reflexivity|]. destruct (_ <? _); [|reflexivity].
    case_bool_decide; [reflexivity | contradiction].
Qed.

Lemma overlap_key_symmetric_witness :
  let square := Demo.shape 0 "Square" (0, 2, 0, 1) in
  let circle := Demo.shape 1 "Circle" (0, 2, 0, 1) in
  let v := SceneValidator.check_pair (square, (0, 2, 0, 1)) (circle, (0, 2, 0, 1))
             (Demo.validator_for Demo.covered (3 # 10)) in
  IssueTracker.issues (SceneValidator.tracker v)
    = [mkIssue ERROR "Covered" 0 (MsgOverlap "100%" "Square" "Circle")] /\
  SceneValidator.check_pair (circle, (0, 2, 0, 1)) (square, (0, 2, 0, 1)) v = v.
Proof.
  intros square circle v. split; [reflexivity|].
  apply (overlap_key_symmetric v square circle (0, 2, 0, 1) (0, 2, 0, 1)).
  vm_compute. set_solver.
Defined.

(** ** Scans with nothing new to find *)

Section Settled.

Context {manim : Manim}.

Import SceneValidator.

Lemma check_oob_settled (v : t) (entry : Mobject * BBox) :
  oob_settled v entry -> check_oob v entry = v.
Proof.
  destruct entry as [mob bbox]. unfold oob_settled, check_oob. simpl.
  intros [H | H].
  - rewrite H. reflexivity.
  - destruct (is_oob bbox) as [|x xs] eqn:E; [reflexivity|].
    case_bool_decide; [reflexivity | contradiction].
Qed.

Lemma check_pair_settled (v : t) (entry_i entry_j : Mobject * BBox) :
  pair_settled v entry_i entry_j -> check_pair entry_i entry_j v = v.
Proof.
  destruct entry_i as [mi bi], entry_j as [mj bj]. unfold pair_settled, check_pair.
  simpl. intros [H | [H | [H | H]]].
  - rewrite H. reflexivity.
  - rewrite H, orb_true_r. reflexivity.
  - destruct (_ || _); [reflexivity|]. apply Qltb_ge in H. rewrite H. reflexivity.
  - destruct (_ || _); [reflexivity|]. destruct (_ <? _); [|reflexivity].
    case_bool_decide; [reflexivity | contradiction].
Qed.

Lemma fold_check_oob_settled (entries : list (Mobject * BBox)) (v : t) :
  Forall (oob_settled v) entries -> fold_left check_oob entries v = v.
Proof.
  induction 1 as [|e rest He _ IH]; simpl; [reflexivity|].
  rewrite (check_oob_settled v e He). exact IH.
Qed.

Lemma fold_check_pair_settled (entry_i : Mobject * BBox)
    (rest : list (Mobject * BBox)) (v : t) :
  Forall (pair_settled v entry_i) rest ->
  fold_left (fun self entry_j => check_pair entry_i entry_j self) rest v = v.
Proof.
  induction 1 as [|e rest He _ IH]; simpl; [reflexivity|].
  rewrite (check_pair_settled v entry_i e He). exact IH.
Qed.

Lemma check_overlaps_settled (entries : list (Mobject * BBox)) (v : t) :
  ForallOrdPairs (pair_settled v) entries -> check_overlaps entries v = v.
Proof.
  induction 1 as [|e rest He _ IH]; simpl; [reflexivity|].
  rewrite (fold_check_pair_settled e rest v He). exact IH.
Qed.

Lemma scan_settled (v : t) (scene : World) (final : bool) :
  settled v (with_bbox (scene_mobjects scene)) -> _check_frame v scene final = v.
Proof.
  intros [Hoob Hpairs]. unfold _check_frame.
  rewrite (fold_check_oob_settled _ v Hoob). apply check_overlaps_settled, Hpairs.
Qed.

(** Settledness survives when keys are added and the threshold stays. *)
Lemma oob_settled_kept (v v' : t) (entry : Mobject * BBox) :
  kept v v' -> oob_settled v entry -> oob_settled v' entry.
Proof. intros [Hk _] [H | H]; [left | right]; [exact H | set_solver]. Qed.

Lemma pair_settled_kept (v v' : t) (entry_i entry_j : Mobject * BBox) :
  kept v v' -> overlap_threshold v' = overlap_threshold v ->
  pair_settled v entry_i entry_j -> pair_settled v' entry_i entry_j.
Proof.
  intros [_ Hk] Ht [H | [H | [H | H]]].
  - left. exact H.
  - right. left. exact H.
  - right. right. left. rewrite Ht. exact H.
  - right. right. right. set_solver.
Qed.

Lemma grown_refl (v : t) : grown v v.
Proof. split; [apply kept_refl | reflexivity]. Qed.

Lemma grown_trans (v1 v2 v3 : t) : grown v1 v2 -> grown v2 v3 -> grown v1 v3.
Proof.
  intros [K1 T1] [K2 T2]. split; [eapply kept_trans; eauto | congruence].
Qed.

Lemma grown_check_oob (v : t) (entry : Mobject * BBox) : grown v (check_oob v entry).
Proof. split; [apply kept_check_oob | apply (filed_check_oob v entry)]. Qed.

Lemma grown_check_pair (entry_i entry_j : Mobject * BBox) (v : t) :
  grown v (check_pair entry_i entry_j v).
Proof. split; [apply kept_check_pair | apply (filed_check_pair entry_i entry_j v)]. Qed.

Lemma grown_fold {A : Type} (f : t -> A -> t) (xs : list A) (v : t) :
  (forall v x, grown v (f v x)) -> grown v (fold_left f xs v).
Proof.
  intros Hf. revert v. induction xs as [|x xs IH]; intros v; simpl.
  - apply grown_refl.
  - eapply grown_trans; [apply Hf | apply IH].
Qed.

Lemma grown_check_overlaps (entries : list (Mobject * BBox)) (v : t) :
  grown v (check_overlaps entries v).
Proof.
  revert v. induction entries as [|e rest IH]; intros v; simpl.
  - apply grown_refl.
  - eapply grown_trans; [|apply IH].
    apply grown_fold. intros v0 x. apply grown_check_pair.
Qed.

Lemma oob_settled_after (v : t) (entry : Mobject * BBox) :
  oob_settled (check_oob v entry) entry.
Proof.
  destruct entry as [mob bbox]. unfold oob_settled. cbn [fst snd].
  destruct (list_eq_nil_dec (is_oob bbox)) as [E | E]; [left; exact E|].
  right. apply check_oob_reports. exact E.
Qed.

Lemma pair_settled_after (v : t) (entry_i entry_j : Mobject * BBox) :
  pair_settled (check_pair entry_i entry_j v) entry_i entry_j.
Proof.
  destruct entry_i as [mi bi], entry_j as [mj bj]. unfold pair_settled. cbn [fst snd].
  destruct (_is_ancestor mi mj) eqn:Hij; [left; reflexivity|].
  destruct (_is_ancestor mj mi) eqn:Hji; [right; left; reflexivity|].
  right. right.
  destruct (overlap_threshold v <? overlap_ratio bi bj) eqn:Hr.
  - right. apply Qltb_lt in Hr. apply check_pair_reports; assumption.
  - left. apply Qltb_ge in Hr.
    rewrite (proj2 (grown_check_pair (mi, bi) (mj, bj) v)). exact Hr.
Qed.

Lemma fold_check_oob_after (entries : list (Mobject * BBox)) (v : t) :
  Forall (oob_settled (fold_left check_oob entries v)) entries.
Proof.
  revert v. induction entries as [|e rest IH]; intros v; simpl; constructor.
  - eapply oob_settled_kept; [|apply oob_settled_after].
    apply (grown_fold check_oob rest (check_oob v e)). apply grown_check_oob.
  - apply IH.
Qed.

Lemma fold_check_pair_after (entry_i : Mobject * BBox)
    (rest : list (Mobject * BBox)) (v : t) :
  Forall (pair_settled
            (fold_left (fun self entry_j => check_pair entry_i entry_j self) rest v)
            entry_i) rest.
Proof.
  revert v. induction rest as [|e rest IH]; intros v; simpl; constructor.
  - destruct (grown_fold (fun self entry_j => check_pair entry_i entry_j self) rest
                (check_pair entry_i e v)) as [Hk Ht].
    { intros v0 x. apply grown_check_pair. }
    eapply pair_settled_kept; [exact Hk | exact Ht | apply pair_settled_after].
  - apply IH.
Qed.

Lemma check_overlaps_after (entries : list (Mobject * BBox)) (v : t) :
  ForallOrdPairs (pair_settled (check_overlaps entries v)) entries.
Proof.
  revert v. induction entries as [|e rest IH]; intros v; simpl; constructor.
  - destruct (grown_check_overlaps rest
                (fold_left (fun self entry_j => check_pair e entry_j self) rest v))
      as [Hk Ht].
    eapply Forall_impl; [apply fold_check_pair_after|].
    intros y Hy. eapply pair_settled_kept; eauto.
  - apply IH.
Qed.

Lemma scan_after (v : t) (scene : World) (final : bool) :
  settled (_check_frame v scene final) (with_bbox (scene_mobjects scene)).
Proof.
  unfold _check_frame. split.
  - destruct (grown_check_overlaps (with_bbox (scene_mobjects scene))
                (fold_left check_oob (with_bbox (scene_mobjects scene)) v)) as [Hk _].
    eapply Forall_impl; [apply fold_check_oob_after|].
    intros e He. eapply oob_settled_kept; eauto.
  - apply check_overlaps_after.
Qed.

End Settled.

(** X7. A scan files nothing and reports no key when every entry is in
    the frame or has its OOB key reported already, and every pair of
    entries, in scan order, is related by ancestry, overlaps by no more
    than the threshold, or has its overlap key reported already. *)
Theorem settled_scan_files_nothing (manim : Manim) (v : SceneValidator.t)
    (scene : World) (final : bool) :
  settled v (SceneValidator.with_bbox (scene_mobjects scene)) ->
  SceneValidator._check_frame v scene final = v.
Proof. apply scan_settled. Qed.

Lemma settled_scan_files_nothing_witness :
  let v := Demo.validator_for Demo.covered (3 # 10) in
  let scene := Demo.world_of [Demo.panel; Demo.label_box; Demo.shape 2 "Dot" (6, 7, 1, 2)] in
  SceneValidator._check_frame (manim := Demo.manim) v scene false = v.
Proof.
  intros v scene.
  apply (settled_scan_files_nothing Demo.manim v scene false).
  assert (Hfar : forall e1 e2 : Mobject * BBox,
            overlap_ratio (snd e1) (snd e2) <= 3 # 10 -> pair_settled v e1 e2).
  { intros e1 e2 H. right. right. left. exact H. }
  split.
  - repeat (apply List.Forall_cons; [left; reflexivity|]). apply List.Forall_nil.
  - apply FOP_cons.
    + apply List.Forall_cons; [left; reflexivity|].
      apply List.Forall_cons; [|apply List.Forall_nil].
      apply Hfar. vm_compute. discriminate.
    + apply FOP_cons.
      * apply List.Forall_cons; [|apply List.Forall_nil].
        apply Hfar. vm_compute. discriminate.
      * apply FOP_cons; [apply List.Forall_nil | apply FOP_nil].
Defined.

(** X8. After a scan of a scene a second scan of the same scene finds
    nothing new, at any step: a [play] batch that leaves the scene as the
    batch before it left it files no issue, and so does the final scan
    when [construct] ends with a [play]. *)
Theorem rescan_files_nothing (manim : Manim) (v : SceneValidator.t)
    (scene : World) (final final' : bool) (n : nat) :
  let v1 := SceneValidator._check_frame v scene final in
  settled v1 (SceneValidator.with_bbox (scene_mobjects scene)) /\
  SceneValidator._check_frame (SceneValidator.set_step n v1) scene final'
    = SceneValidator.set_step n v1 /\
  SceneValidator._check_frame v1 scene final' = v1 /\
  (forall args1 args2 st,
     Forall skipped args2 ->
     let st1 := snd (SceneValidator.patched_play args1 st) in
     let st2 := snd (SceneValidator.patched_play args2 st1) in
     SceneValidator.tracker (SceneValidator.validator st2)
       = SceneValidator.tracker (SceneValidator.validator st1) /\
     SceneValidator.scene st2 = SceneValidator.scene st1).
Proof.
  intros v1.
  assert (Hset : forall v0 sc f,
            settled (SceneValidator._check_frame v0 sc f)
                    (SceneValidator.with_bbox (scene_mobjects sc)))
    by (intros; apply scan_after).
  split; [apply Hset|]. split; [|split].
  - apply scan_settled. exact (Hset v scene final).
  - apply scan_settled. exact (Hset v scene final).
  - intros args1 args2 st Hskip st1 st2.
    unfold st2. rewrite patched_play_unfold.
    rewrite (play_args_skipped args2 st1 Hskip). cbn zeta. cbn [snd].
    unfold st1. rewrite patched_play_unfold. cbn zeta.
    cbn [snd SceneValidator.validator SceneValidator.scene].
    split; [|reflexivity].
    rewrite scan_settled; [reflexivity|].
    apply (Hset (SceneValidator.set_step _ (SceneValidator.validator st))).
Qed.

Lemma rescan_files_nothing_witness :
  let st := SceneValidator.mkState
              (Demo.validator_for Demo.drifting (3 # 10))
              (Demo.world_of [Demo.shape 0 "Square" (-8, -6, -1, 1)]) in
  let st1 := snd (SceneValidator.patched_play (manim := Demo.manim) [] st) in
  let st2 := snd (SceneValidator.patched_play (manim := Demo.manim) [NotAnAnimation] st1) in
  length (IssueTracker.issues (SceneValidator.tracker (SceneValidator.validator st1))) = 1%nat /\
  SceneValidator.tracker (SceneValidator.validator st2)
    = SceneValidator.tracker (SceneValidator.validator st1).
Proof.
  intros st st1 st2. split; [reflexivity|].
  destruct (rescan_files_nothing Demo.manim (SceneValidator.validator st)
              (SceneValidator.scene st) false false 0) as (_ & _ & _ & H).
  apply (H [] [NotAnAnimation] st). repeat constructor.
Defined.

(** ** The validator and the scene *)

Section InScene.

Context {manim : Manim}.

Import SceneValidator.

Lemma on_scene_unfold {A : Type} (code : Py World A) (st : State) :
  on_scene code st = (fst (code (scene st)), mkState (validator st) (snd (code (scene st)))).
Proof. unfold on_scene. destruct (code (scene st)). reflexivity. Qed.

Lemma on_scene_bind {A B : Type} (m : Py World A) (k : A -> Py World B) (st : State) :
  on_scene (m ≫= k) st = (on_scene m ≫= fun a => on_scene (k a)) st.
Proof.
  rewrite bind_unfold, !on_scene_unfold, bind_unfold.
  destruct (m (scene st)) as [[a|e] w]; simpl; [|reflexivity].
  rewrite on_scene_unfold. reflexivity.
Qed.

Lemma on_scene_try {A : Type} (body : Py World A) (handler : Exn -> Py World A)
    (st : State) :
  on_scene (try_except body handler) st
  = try_except (on_scene body) (fun e => on_scene (handler e)) st.
Proof.
  unfold try_except. rewrite !on_scene_unfold.
  destruct (body (scene st)) as [[a|e] w]; simpl; [reflexivity|].
  rewrite on_scene_unfold. reflexivity.
Qed.

Lemma add_if_absent_on_scene (mob : ObjId) (st : State) :
  add_if_absent mob st
  = on_scene (modify (fun w =>
                if bool_decide (mob ∈ mobjects w) then w else scene_add w mob)) st.
Proof.
  rewrite on_scene_unfold. unfold add_if_absent, modify. simpl.
  case_bool_decide; [destruct st|]; reflexivity.
Qed.

Lemma lifecycle_on_scene (anim : Animation) (st : State) :
  lifecycle anim st
  = on_scene (_setup_scene anim ;; begin anim ;; interpolate anim 1 ;; finish anim) st.
Proof.
  unfold lifecycle. rewrite on_scene_bind, !bind_unfold.
  destruct (on_scene (_setup_scene anim) st) as [[[]|e] s1]; [|reflexivity].
  rewrite on_scene_bind, !bind_unfold.
  destruct (on_scene (begin anim) s1) as [[[]|e] s2]; [|reflexivity].
  rewrite on_scene_bind. reflexivity.
Qed.

Lemma play_arg_on_scene (arg : PlayArg) (st : State) :
  play_arg arg st = on_scene (play_arg_in_scene arg) st.
Proof.
  destruct arg as [anim|]; [|now rewrite on_scene_unfold; destruct st].
  unfold play_arg, play_arg_in_scene.
  destruct (mobject anim) as [mob|]; [|now rewrite on_scene_unfold; destruct st].
  cbv zeta. rewrite on_scene_bind, !bind_unfold, <- add_if_absent_on_scene.
  destruct (add_if_absent mob st) as [[[]|e] s1]; [|reflexivity].
  rewrite on_scene_bind, !bind_unfold, on_scene_try.
  unfold try_except.
  rewrite <- (lifecycle_on_scene anim s1).
  destruct (lifecycle anim s1) as [[[]|e] s2].
  - rewrite <- add_if_absent_on_scene. reflexivity.
  - rewrite on_scene_unfold. cbn [mret Py_ret ret fst snd].
    rewrite <- add_if_absent_on_scene. destruct s2. reflexivity.
Qed.

Lemma play_args_on_scene (args : list PlayArg) (st : State) :
  for_each args play_arg st = on_scene (for_each args play_arg_in_scene) st.
Proof.
  revert st. induction args as [|arg args IH]; intros st.
  - rewrite on_scene_unfold. destruct st. reflexivity.
  - cbn [for_each]. rewrite on_scene_bind, !bind_unfold, <- play_arg_on_scene.
    destruct (play_arg arg st) as [[[]|e] s1]; [apply IH | reflexivity].
Qed.

End InScene.

(** ** One tracker for all scenes *)

Section OnTop.

Context {manim : Manim}.

Import SceneValidator.

Variable p : list Issue.

Lemma on_top_check_oob (v : t) (entry : Mobject * BBox) :
  check_oob (on_top p v) entry = on_top p (check_oob v entry).
Proof.
  destruct entry as [mob [[[l r] b] t0]]. unfold check_oob.
  destruct (is_oob (l, r, b, t0)) as [|x xs]; [reflexivity|].
  change (_reported_oob (on_top p v)) with (_reported_oob v).
  case_bool_decide; [reflexivity|].
  unfold on_top, tracker_add, set_tracker, IssueTracker.add. simpl.
  rewrite app_assoc. reflexivity.
Qed.

Lemma on_top_check_pair (entry_i entry_j : Mobject * BBox) (v : t) :
  check_pair entry_i entry_j (on_top p v) = on_top p (check_pair entry_i entry_j v).
Proof.
  destruct entry_i as [mi bi], entry_j as [mj bj]. unfold check_pair.
  destruct (_ || _); [reflexivity|].
  change (overlap_threshold (on_top p v)) with (overlap_threshold v).
  destruct (_ <? _); [|reflexivity].
  change (_reported_overlaps (on_top p v)) with (_reported_overlaps v).
  case_bool_decide; [reflexivity|].
  unfold on_top, tracker_add, set_tracker, IssueTracker.add. simpl.
  rewrite app_assoc. reflexivity.
Qed.

Lemma on_top_fold {A : Type} (f : t -> A -> t) (xs : list A) (v : t) :
  (forall v x, f (on_top p v) x = on_top p (f v x)) ->
  fold_left f xs (on_top p v) = on_top p (fold_left f xs v).
Proof.
  intros Hf. revert v. induction xs as [|x xs IH]; intros v; simpl; [reflexivity|].
  rewrite Hf. apply IH.
Qed.

Lemma on_top_check_overlaps (entries : list (Mobject * BBox)) (v : t) :
  check_overlaps entries (on_top p v) = on_top p (check_overlaps entries v).
Proof.
  revert v. induction entries as [|e rest IH]; intros v; simpl; [reflexivity|].
  rewrite on_top_fold by (intros; apply on_top_check_pair). apply IH.
Qed.

Lemma on_top_check_frame (v : t) (scene : World) (final : bool) :
  _check_frame (on_top p v) scene final = on_top p (_check_frame v scene final).
Proof.
  unfold _check_frame.
  rewrite on_top_fold by (intros; apply on_top_check_oob).
  apply on_top_check_overlaps.
Qed.

Lemma on_top_run_stmt (stmt : Stmt) (st : State) :
  run_stmt stmt (state_on_top p st)
  = (fst (run_stmt stmt st), state_on_top p (snd (run_stmt stmt st))).
Proof.
  destruct stmt as [args|args|code]; cbn [run_stmt].
  - rewrite !patched_play_unfold, !play_args_on_scene, !on_scene_unfold.
    cbn zeta. cbn [fst snd scene validator state_on_top].
    change (step (on_top p (validator st))) with (step (validator st)).
    change (set_step (step (validator st) + 1) (on_top p (validator st)))
      with (on_top p (set_step (step (validator st) + 1) (validator st))).
    rewrite on_top_check_frame. reflexivity.
  - reflexivity.
  - rewrite !on_scene_unfold. reflexivity.
Qed.

Lemma on_top_run_stmts (stmts : list Stmt) (st : State) :
  for_each stmts run_stmt (state_on_top p st)
  = (fst (for_each stmts run_stmt st),
     state_on_top p (snd (for_each stmts run_stmt st))).
Proof.
  revert st. induction stmts as [|stmt rest IH]; intros st; [reflexivity|].
  cbn [for_each]. rewrite !bind_unfold, on_top_run_stmt.
  destruct (run_stmt stmt st) as [[[]|e] s1]; cbn [fst snd]; [apply IH | reflexivity].
Qed.

Lemma on_top_validate (v : t) :
  validate (on_top p v) = (fst (validate v), state_on_top p (snd (validate v))).
Proof.
  unfold validate. rewrite !bind_unfold. unfold try_except.
  set (st0 := mkState (set_reported_oob ∅ (set_reported_overlaps ∅ (set_step 0 v)))
                      (new_scene (scene_class v))).
  change (for_each _ run_stmt
            (mkState (set_reported_oob ∅ (set_reported_overlaps ∅ (set_step 0 (on_top p v)))) _))
    with (for_each (construct (scene_class v)) run_stmt (state_on_top p st0)).
  change (for_each _ run_stmt (mkState _ _))
    with (for_each (construct (scene_class v)) run_stmt st0).
  rewrite on_top_run_stmts.
  destruct (for_each (construct (scene_class v)) run_stmt st0) as [[[]|e] s1];
    unfold modify, state_on_top; cbn [fst snd validator scene].
  - rewrite on_top_check_frame. reflexivity.
  - change (tracker_add ERROR (MsgConstruct (exn_type e) (exn_text e)) (on_top p (validator s1)))
      with (set_tracker
              (IssueTracker.mk
                 ((p ++ IssueTracker.issues (tracker (validator s1))) ++
                  [mkIssue ERROR (scene_name (validator s1)) (step (validator s1))
                     (MsgConstruct (exn_type e) (exn_text e))]))
              (validator s1)).
    rewrite <- app_assoc.
    change (set_tracker _ (validator s1))
      with (on_top p (tracker_add ERROR (MsgConstruct (exn_type e) (exn_text e))
                        (validator s1))).
    rewrite on_top_check_frame. reflexivity.
Qed.

End OnTop.

Lemma on_top_init (sc : SceneClass) (tr : IssueTracker.t) (threshold : Q) (verbose : bool) :
  SceneValidator.__init__ sc tr threshold verbose
  = on_top (IssueTracker.issues tr)
      (SceneValidator.__init__ sc IssueTracker.__init__ threshold verbose).
Proof.
  unfold on_top, SceneValidator.__init__, SceneValidator.set_tracker. simpl.
  rewrite app_nil_r. destruct tr. reflexivity.
Qed.

Lemma validate_all_snoc {manim : Manim} (scs : list SceneClass) (sc : SceneClass)
    (threshold : Q) (verbose : bool) :
  IssueTracker.issues (validate_all (scs ++ [sc]) threshold verbose)
  = IssueTracker.issues (validate_all scs threshold verbose)
    ++ findings sc threshold verbose.
Proof.
  unfold validate_all. rewrite fold_left_app. simpl.
  rewrite on_top_init, on_top_validate. reflexivity.
Qed.

Lemma validate_all_findings {manim : Manim} (scene_classes : list SceneClass)
    (threshold : Q) (verbose : bool) :
  IssueTracker.issues (validate_all scene_classes threshold verbose)
  = concat (map (fun sc => findings sc threshold verbose) scene_classes).
Proof.
  induction scene_classes as [|sc scs IH] using rev_ind; [reflexivity|].
  rewrite validate_all_snoc, IH, map_app, concat_app. simpl.
  rewrite app_nil_r. reflexivity.
Qed.

(** X9. What a scene files does not depend on the tracker it is given: a
    validator made for a scene class on any tracker ends with the issues
    that were there followed by the findings of that class on its own, and
    leaves the same scene.  The tracker after [main]'s loop holds the
    findings of the scene classes one after the other, in loop order. *)
Theorem scenes_do_not_interfere (manim : Manim) (threshold : Q) (verbose : bool) :
  (forall sc tr,
     let alone := SceneValidator.validate
                    (SceneValidator.__init__ sc IssueTracker.__init__ threshold verbose) in
     let shared := SceneValidator.validate
                     (SceneValidator.__init__ sc tr threshold verbose) in
     IssueTracker.issues (SceneValidator.tracker (SceneValidator.validator (snd shared)))
       = IssueTracker.issues tr ++ findings sc threshold verbose /\
     SceneValidator.scene (snd shared) = SceneValidator.scene (snd alone) /\
     SceneValidator.step (SceneValidator.validator (snd shared))
       = SceneValidator.step (SceneValidator.validator (snd alone))) /\
  (forall scene_classes,
     IssueTracker.issues (validate_all scene_classes threshold verbose)
       = concat (map (fun sc => findings sc threshold verbose) scene_classes)).
Proof.
  split.
  - intros sc tr alone shared. unfold shared.
    rewrite on_top_init, on_top_validate. fold alone. repeat split.
  - intros scene_classes. apply validate_all_findings.
Qed.

(** ** The issues of one run *)

(** A relation that holds across the loop bodies of a scan and across the
    step increment holds across the statements of [construct]. *)
Section RunRelation.

Context {manim : Manim}.

Import SceneValidator.

Variable R : t -> t -> Prop.
Hypothesis R_refl : forall v, R v v.
Hypothesis R_trans : forall v1 v2 v3, R v1 v2 -> R v2 v3 -> R v1 v3.
Hypothesis R_oob : forall v entry, R v (check_oob v entry).
Hypothesis R_pair : forall entry_i entry_j v, R v (check_pair entry_i entry_j v).
Hypothesis R_incr : forall v, R v (set_step (step v + 1) v).

Lemma run_stmt_rel (stmt : Stmt) (st : State) :
  R (validator st) (validator (snd (run_stmt stmt st))).
Proof.
  destruct stmt as [args|args|code]; cbn [run_stmt].
  - rewrite patched_play_unfold. cbn zeta. cbn [snd validator].
    eapply R_trans; [apply R_incr|]. apply scan_check_frame; assumption.
  - apply R_refl.
  - rewrite on_scene_validator. apply R_refl.
Qed.

Lemma run_stmts_rel (stmts : list Stmt) (st : State) :
  R (validator st) (validator (snd (for_each stmts run_stmt st))).
Proof.
  revert st. induction stmts as [|stmt rest IH]; intros st; [apply R_refl|].
  cbn [for_each]. rewrite bind_unfold.
  pose proof (run_stmt_rel stmt st) as Hstmt.
  destruct (run_stmt stmt st) as [[[]|e] s']; [|exact Hstmt].
  eapply R_trans; [exact Hstmt | apply IH].
Qed.

End RunRelation.

Section Ran.

Context {manim : Manim}.

Import SceneValidator.

Lemma finding_weaken (name : string) (lo hi lo' hi' : nat) (i : Issue) :
  (lo' <= lo)%nat -> (hi <= hi')%nat -> finding name lo hi i -> finding name lo' hi' i.
Proof. intros Hlo Hhi (Hn & Hs & Hm). repeat split; [exact Hn | lia | lia | exact Hm]. Qed.

Lemma ran_refl (v : t) : ran v v.
Proof.
  split; [reflexivity|]. split; [lia|]. exists [].
  rewrite app_nil_r. repeat constructor.
Qed.

Lemma ran_trans (v1 v2 v3 : t) : ran v1 v2 -> ran v2 v3 -> ran v1 v3.
Proof.
  intros (N1 & S1 & new1 & E1 & F1 & O1) (N2 & S2 & new2 & E2 & F2 & O2).
  split; [congruence|]. split; [lia|].
  exists (new1 ++ new2). split; [rewrite E2, E1, app_assoc; reflexivity|]. split.
  - apply Forall_app. split.
    + eapply Forall_impl; [exact F1|]. intros i. apply finding_weaken; lia.
    + rewrite N1 in F2. eapply Forall_impl; [exact F2|].
      intros i. apply finding_weaken; lia.
  - apply StronglySorted_app_2; [|assumption|assumption].
    intros i j Hi Hj. rewrite Forall_forall in F1, F2.
    destruct (F1 i Hi) as (_ & Hsi & _). destruct (F2 j Hj) as (_ & Hsj & _).
    unfold by_step. lia.
Qed.

Lemma ran_one (v : t) (sev : Severity) (msg : Message) (v0 : t) :
  scene_name v0 = scene_name v -> step v0 = step v ->
  tracker v0 = tracker v ->
  finding (scene_name v) (step v) (step v) (mkIssue sev (scene_name v) (step v) msg) ->
  ran v (tracker_add sev msg v0).
Proof.
  intros Hn Hs Ht Hf. split; [exact Hn|]. split; [simpl; lia|].
  exists [mkIssue sev (scene_name v) (step v) msg]. simpl.
  rewrite Hn, Hs, Ht. split; [reflexivity|]. split.
  - constructor; [exact Hf | constructor].
  - repeat constructor.
Qed.

Lemma ran_check_oob (v : t) (entry : Mobject * BBox) : ran v (check_oob v entry).
Proof.
  destruct entry as [mob [[[l r] b] t0]]. unfold check_oob.
  destruct (is_oob (l, r, b, t0)) as [|x xs] eqn:E; [apply ran_refl|].
  case_bool_decide; [apply ran_refl|].
  apply ran_one; try reflexivity.
  repeat split; simpl; try lia. discriminate.
Qed.

Lemma ran_check_pair (entry_i entry_j : Mobject * BBox) (v : t) :
  ran v (check_pair entry_i entry_j v).
Proof.
  destruct entry_i as [mi bi], entry_j as [mj bj]. unfold check_pair.
  destruct (_ || _); [apply ran_refl|].
  destruct (overlap_threshold v <? overlap_ratio bi bj); [|apply ran_refl].
  case_bool_decide; [apply ran_refl|].
  apply ran_one; try reflexivity.
  repeat split; simpl; lia.
Qed.

Lemma ran_incr (v : t) : ran v (set_step (step v + 1) v).
Proof.
  split; [reflexivity|]. split; [simpl; lia|]. exists [].
  simpl. rewrite app_nil_r. repeat constructor.
Qed.

Lemma ran_check_frame (v : t) (scene : World) (final : bool) :
  ran v (_check_frame v scene final).
Proof.
  apply scan_check_frame.
  - apply ran_refl.
  - apply ran_trans.
  - apply ran_check_oob.
  - apply ran_check_pair.
Qed.

Lemma ran_run_stmts (stmts : list Stmt) (st : State) :
  ran (validator st) (validator (snd (for_each stmts run_stmt st))).
Proof.
  apply run_stmts_rel.
  - apply ran_refl.
  - apply ran_trans.
  - apply ran_check_oob.
  - apply ran_check_pair.
  - apply ran_incr.
Qed.

(** The issues of a run: the findings of the batches, the error of
    [construct] if it raised, the findings of the final scan. *)
Lemma validate_shape (v : t) :
  let st0 := mkState (set_reported_oob ∅ (set_reported_overlaps ∅ (set_step 0 v)))
                     (new_scene (scene_class v)) in
  let r := for_each (construct (scene_class v)) run_stmt st0 in
  let s := step (validator (snd r)) in
  let err :=
    match fst r with
    | Returned _ => []
    | Raised e => [mkIssue ERROR (scene_name v) s (MsgConstruct (exn_type e) (exn_text e))]
    end in
  exists before after,
    IssueTracker.issues (tracker (validator (snd (validate v))))
      = IssueTracker.issues (tracker v) ++ before ++ err ++ after /\
    Forall (finding (scene_name v) 0 s) before /\
    Forall (finding (scene_name v) s s) after /\
    StronglySorted by_step before /\
    step (validator (snd (validate v))) = s /\
    scene_name (validator (snd (validate v))) = scene_name v /\
    scene (snd (validate v)) = scene (snd r).
Proof.
  intros st0 r s err.
  destruct (ran_run_stmts (construct (scene_class v)) st0)
    as (Hn & _ & before & Hb & Fb & Ob).
  fold r in Hn, Hb, Fb. change (step (validator st0)) with 0%nat in Fb.
  change (scene_name (validator st0)) with (scene_name v) in *.
  change (IssueTracker.issues (tracker (validator st0)))
    with (IssueTracker.issues (tracker v)) in Hb.
  unfold validate. rewrite bind_unfold. unfold try_except.
  change (for_each _ run_stmt (mkState _ _)) with r.
  unfold err, s. clear err.
  destruct r as [[[]|e] s1] eqn:Er; cbn [fst snd] in *; unfold modify;
    cbn [fst snd validator scene].
  - destruct (ran_check_frame (validator s1) (scene s1) true)
      as (Hn2 & Hs2 & after & Ha & Fa & _).
    pose proof (filed_check_frame (validator s1) (scene s1) true) as (Hstep & _).
    rewrite Hstep in Fa. rewrite Hn in Fa.
    exists before, after. rewrite Ha, Hb, <- app_assoc. simpl.
    repeat split; try assumption; congruence.
  - set (v2 := tracker_add ERROR (MsgConstruct (exn_type e) (exn_text e)) (validator s1)).
    destruct (ran_check_frame v2 (scene s1) true) as (Hn2 & Hs2 & after & Ha & Fa & _).
    pose proof (filed_check_frame v2 (scene s1) true) as (Hstep & _).
    rewrite Hstep in Fa.
    change (scene_name v2) with (scene_name (validator s1)) in *.
    change (step v2) with (step (validator s1)) in *.
    rewrite Hn in Fa.
    exists before, after. rewrite Ha. unfold v2 at 1. simpl.
    rewrite Hb, Hn, <- !app_assoc. simpl.
    repeat split; try assumption; congruence.
Qed.

End Ran.


Lemma same_step_sorted (s : nat) (l : list Issue) :
  Forall (fun i => issue_step i = s) l -> StronglySorted by_step l.
Proof.
  induction 1 as [|i l Hi Hl IH]; constructor; [exact IH|].
  eapply Forall_impl; [exact Hl|]. intros j Hj. unfold by_step.
  rewrite Hi, Hj. reflexivity.
Qed.


(** X11. Every issue that a run adds carries the scene name of the
    validator and a step no higher than the final step, the steps never go
    down along the tracker, and a WARN is always an overlap finding. *)
Theorem run_issues_in_step_order (manim : Manim) (v : SceneValidator.t) :
  let v' := SceneValidator.validator (snd (SceneValidator.validate v)) in
  exists new,
    IssueTracker.issues (SceneValidator.tracker v')
      = IssueTracker.issues (SceneValidator.tracker v) ++ new /\
    StronglySorted by_step new /\
    Forall (fun i =>
              issue_scene i = SceneValidator.scene_name v /\
              (issue_step i <= SceneValidator.step v')%nat /\
              (issue_severity i = WARN ->
               exists pct l1 l2, issue_msg i = MsgOverlap pct l1 l2)) new.
Proof.
  intros v'.
  destruct (validate_shape v) as (before & after & Hi & Fb & Fa & Ob & Hs & _ & _).
  fold v' in Hi, Hs. cbv zeta in *.
  set (r := for_each _ SceneValidator.run_stmt _) in *.
  set (s := SceneValidator.step (SceneValidator.validator (snd r))) in *.
  set (err := match fst r with Returned _ => [] | Raised e => _ end) in *.
  assert (Hfind : forall lo i,
            finding (SceneValidator.scene_name v) lo s i ->
            issue_scene i = SceneValidator.scene_name v /\
            (issue_step i <= SceneValidator.step v')%nat /\
            (issue_severity i = WARN ->
             exists pct l1 l2, issue_msg i = MsgOverlap pct l1 l2)).
  { intros lo i (Hn & Hst & Hm). split; [exact Hn|]. split; [lia|].
    intros Hw. destruct (issue_msg i) as [? ? ? ? ? ?|pct l1 l2|? ?].
    - destruct Hm as [Hm _]. congruence.
    - eauto.
    - contradiction. }
  assert (Ferr : Forall (fun i => issue_step i = s /\ issue_severity i = ERROR /\
                                  issue_scene i = SceneValidator.scene_name v) err).
  { unfold err. destruct (fst r); repeat constructor. }
  exists (before ++ err ++ after). split; [exact Hi|]. split.
  - apply StronglySorted_app_2; [|exact Ob|].
    + intros i j Hi' Hj. rewrite Forall_forall in Fb, Fa, Ferr.
      destruct (Fb i Hi') as (_ & Hsi & _). unfold by_step.
      apply elem_of_app in Hj. destruct Hj as [Hj | Hj].
      * destruct (Ferr j Hj) as (Hsj & _). lia.
      * destruct (Fa j Hj) as (_ & Hsj & _). lia.
    + apply (same_step_sorted s). apply Forall_app. split.
      * eapply Forall_impl; [exact Ferr|]. intros i (H & _). exact H.
      * eapply Forall_impl; [exact Fa|]. intros i (_ & H & _). lia.
  - apply Forall_app. split; [|apply Forall_app; split].
    + eapply Forall_impl; [exact Fb|]. intros i. apply Hfind.
    + eapply Forall_impl; [exact Ferr|]. intros i (H1 & H2 & H3).
      split; [exact H3|]. split; [lia|]. congruence.
    + eapply Forall_impl; [exact Fa|]. intros i. apply Hfind.
Qed.

(** ** The target of an animation *)

(** X12. With an [add] that puts the mobject into [scene.mobjects], the
    target of an animation is in the scene when [play_arg] is done with
    it, also when a stage took it out or raised. *)
Theorem target_in_scene_after_play (manim : Manim) (anim : Animation) (mob : ObjId)
    (st : SceneValidator.State) :
  (forall w, mob ∈ mobjects (scene_add w mob)) ->
  mobject anim = Some mob ->
  mob ∈ mobjects
          (SceneValidator.scene (snd (SceneValidator.play_arg (AnAnimation anim) st))).
Proof.
  intros Hadd Hmob. rewrite (play_arg_animation anim mob st Hmob). cbn [snd].
  set (st2 := snd (SceneValidator.lifecycle anim (snd (SceneValidator.add_if_absent mob st)))).
  unfold SceneValidator.add_if_absent at 1. unfold modify. cbn [snd].
  case_bool_decide as Hin; [exact Hin | apply Hadd].
Qed.

Lemma target_in_scene_after_play_witness :
  let st := SceneValidator.mkState
              (Demo.validator_for Demo.late (3 # 10))
              (Demo.world_of [Demo.label_box]) in
  mobjects (SceneValidator.scene
              (snd (SceneValidator.lifecycle Samples.crashing st))) = [] /\
  0%nat ∈ mobjects
            (SceneValidator.scene
               (snd (SceneValidator.play_arg (manim := Demo.manim)
                       (AnAnimation Samples.vanishing) st))) /\
  0%nat ∈ mobjects
            (SceneValidator.scene
               (snd (SceneValidator.play_arg (manim := Demo.manim)
                       (AnAnimation Samples.crashing) st))).
Proof.
  intros st.
  assert (Hadd : forall w, 0%nat ∈ mobjects (scene_add (Manim := Demo.manim) w 0%nat)).
  { intros w. simpl. set_solver. }
  split; [reflexivity|]. split.
  - apply (target_in_scene_after_play Demo.manim Samples.vanishing 0%nat st Hadd eq_refl).
  - apply (target_in_scene_after_play Demo.manim Samples.crashing 0%nat st Hadd eq_refl).
Defined.

(** ** The report *)

Section ReportFacts.

Import Report.

Lemma issue_of_item (i : Issue) :
  issue_of (issue_scene i) (issue_severity i, issue_step i, issue_msg i) = i.
Proof. destruct i. reflexivity. Qed.

Lemma printed_issues_append (d : list (string * list Item)) (scene : string) (item : Item) :
  printed_issues (append d scene item) ≡ₚ printed_issues d ++ [issue_of scene item].
Proof.
  induction d as [|[name items] rest IH]; simpl; [reflexivity|].
  destruct (String.eqb name scene) eqn:E.
  - apply String.eqb_eq in E. subst name. unfold printed_issues. simpl.
    rewrite map_app. simpl. rewrite <- !app_assoc.
    apply Permutation_app_head. apply Permutation_app_comm.
  - unfold printed_issues in *. simpl. rewrite <- app_assoc.
    apply Permutation_app_head. exact IH.
Qed.

Lemma by_scene_snoc (issues : list Issue) (i : Issue) :
  by_scene (issues ++ [i])
  = append (by_scene issues) (issue_scene i) (issue_severity i, issue_step i, issue_msg i).
Proof. unfold by_scene. rewrite fold_left_app. reflexivity. Qed.

Lemma printed_issues_by_scene (issues : list Issue) :
  printed_issues (by_scene issues) ≡ₚ issues.
Proof.
  induction issues as [|i issues IH] using rev_ind; [reflexivity|].
  rewrite by_scene_snoc, printed_issues_append, issue_of_item, IH. reflexivity.
Qed.

Lemma scene_lines_Permutation (items : list Item) : scene_lines items ≡ₚ items.
Proof.
  unfold scene_lines, errors, warns.
  induction items as [|[[sev st] m] items IH]; simpl; [reflexivity|].
  destruct sev; unfold is_error, is_warn; simpl.
  - constructor. exact IH.
  - rewrite <- Permutation_middle. constructor. exact IH.
Qed.

Lemma printed_issues_lines (d : list (string * list Item)) :
  printed_issues (map (fun entry => (fst entry, scene_lines (snd entry))) d)
  ≡ₚ printed_issues d.
Proof.
  unfold printed_issues.
  induction d as [|[name items] rest IH]; simpl; [reflexivity|].
  rewrite IH, scene_lines_Permutation. reflexivity.
Qed.

Lemma totals_add_up (self : IssueTracker.t) :
  (total_err self + total_warn self = length (IssueTracker.issues self))%nat.
Proof.
  unfold total_err, total_warn.
  induction (IssueTracker.issues self) as [|i l IH]; simpl; [reflexivity|].
  destruct (issue_severity i); simpl; lia.
Qed.

(** Closed form of [by_scene]. *)
Lemma first_occurrences_elem (l : list string) (s : string) :
  s ∈ first_occurrences l <-> s ∈ l.
Proof.
  induction l as [|a l IH]; simpl; [reflexivity|].
  rewrite !elem_of_cons, list_elem_of_In, filter_In, <- list_elem_of_In, IH.
  destruct (String.eqb s a) eqn:E.
  - apply String.eqb_eq in E. tauto.
  - apply String.eqb_neq in E. simpl. tauto.
Qed.

Lemma first_occurrences_snoc (l : list string) (s : string) :
  first_occurrences (l ++ [s])
  = first_occurrences l ++ (if bool_decide (s ∈ l) then [] else [s]).
Proof.
  induction l as [|a l IH]; simpl; [reflexivity|].
  rewrite IH, List.filter_app. f_equal. f_equal.
  destruct (String.eqb s a) eqn:E.
  - apply String.eqb_eq in E. subst a.
    rewrite (bool_decide_eq_true_2 (s ∈ s :: l)) by apply list_elem_of_here.
    case_bool_decide; simpl; [reflexivity|]. rewrite String.eqb_refl. reflexivity.
  - apply String.eqb_neq in E.
    case_bool_decide as Hin.
    + rewrite (bool_decide_eq_true_2 (s ∈ a :: l)) by (apply elem_of_cons; auto). reflexivity.
    + rewrite (bool_decide_eq_false_2 (s ∈ a :: l)) by (rewrite elem_of_cons; tauto).
      simpl. apply String.eqb_neq in E. rewrite E. reflexivity.
Qed.

Lemma first_occurrences_NoDup (l : list string) : NoDup (first_occurrences l).
Proof.
  induction l as [|a l IH]; simpl; constructor.
  - rewrite list_elem_of_In, filter_In. intros [_ H].
    rewrite String.eqb_refl in H. discriminate.
  - apply NoDup_ListNoDup, List.NoDup_filter, NoDup_ListNoDup, IH.
Qed.

Lemma filter_absent_scene (issues : list Issue) (scene : string) :
  scene ∉ map issue_scene issues ->
  List.filter (fun i => String.eqb (issue_scene i) scene) issues = [].
Proof.
  induction issues as [|i issues IH]; simpl; [reflexivity|].
  intros Hnot. apply not_elem_of_cons in Hnot. destruct Hnot as [Hne Hnot].
  destruct (String.eqb (issue_scene i) scene) eqn:E.
  - apply String.eqb_eq in E. congruence.
  - apply IH, Hnot.
Qed.

Lemma append_closed (g : string -> list Item) (keys : list string)
    (scene : string) (item : Item) :
  NoDup keys ->
  append (map (fun s => (s, g s)) keys) scene item
  = map (fun s => (s, if String.eqb s scene then g s ++ [item] else g s)) keys
    ++ (if bool_decide (scene ∈ keys) then [] else [(scene, [item])]).
Proof.
  induction 1 as [|k keys Hk Hnd IH]; simpl; [reflexivity|].
  destruct (String.eqb k scene) eqn:E.
  - apply String.eqb_eq in E. subst k.
    rewrite (bool_decide_eq_true_2 (scene ∈ scene :: keys)) by apply list_elem_of_here.
    rewrite app_nil_r. f_equal. apply map_ext_in. intros s Hs.
    destruct (String.eqb s scene) eqn:E'; [|reflexivity].
    apply String.eqb_eq in E'. subst s. apply list_elem_of_In in Hs. contradiction.
  - rewrite IH. simpl. f_equal. f_equal. apply String.eqb_neq in E.
    case_bool_decide as Hin.
    + rewrite (bool_decide_eq_true_2 (scene ∈ k :: keys)) by (apply elem_of_cons; auto). reflexivity.
    + rewrite (bool_decide_eq_false_2 (scene ∈ k :: keys)) by (rewrite elem_of_cons; intros [?|?]; congruence || contradiction). reflexivity.
Qed.

Lemma by_scene_closed (issues : list Issue) :
  by_scene issues
  = map (fun s => (s, items_of s issues)) (first_occurrences (map issue_scene issues)).
Proof.
  induction issues as [|i issues IH] using rev_ind; [reflexivity|].
  rewrite by_scene_snoc, IH, append_closed by apply first_occurrences_NoDup.
  rewrite map_app. simpl map. rewrite first_occurrences_snoc, map_app.
  f_equal.
  - apply map_ext_in. intros s Hs. f_equal. unfold items_of.
    rewrite List.filter_app, map_app. simpl.
    rewrite (String.eqb_sym (issue_scene i) s).
    destruct (String.eqb s (issue_scene i)); simpl; [reflexivity | now rewrite app_nil_r].
  - rewrite (bool_decide_ext _ (issue_scene i ∈ map issue_scene issues))
      by apply first_occurrences_elem.
    case_bool_decide as Hin; [reflexivity|]. simpl. f_equal. f_equal.
    unfold items_of. rewrite List.filter_app, map_app. simpl.
    rewrite String.eqb_refl. simpl.
    rewrite (filter_absent_scene issues (issue_scene i) Hin). reflexivity.
Qed.

End ReportFacts.

Lemma filter_scene_severity (scene : string) (severity : Severity) (issues : list Issue) :
  map (Report.issue_of scene)
      (List.filter
         (fun item : Report.Item =>
            match fst (fst item), severity with
            | ERROR, ERROR | WARN, WARN => true
            | _, _ => false
            end)
         (items_of scene issues))
  = issues_of scene severity issues.
Proof.
  unfold items_of, issues_of.
  induction issues as [|i issues IH]; simpl; [reflexivity|].
  destruct (String.eqb (issue_scene i) scene) eqn:E; simpl; [|exact IH].
  apply String.eqb_eq in E.
  destruct (issue_severity i) eqn:Es, severity; simpl; rewrite ?IH; try reflexivity;
    f_equal; destruct i; simpl in *; subst; reflexivity.
Qed.

(** X13. When there are issues, the report lists the scenes in the order
    of their first issue, each scene once, and under a scene its errors in
    tracker order followed by its warnings in tracker order. *)
Theorem report_sections (self : IssueTracker.t) (out : Report.Printed) :
  Report.printed self = Some out ->
  map (fun entry => (fst entry, map (Report.issue_of (fst entry)) (snd entry)))
      (Report.sections out)
  = map (fun scene =>
           (scene,
            issues_of scene ERROR (IssueTracker.issues self) ++
            issues_of scene WARN (IssueTracker.issues self)))
        (first_occurrences (map issue_scene (IssueTracker.issues self))) /\
  NoDup (map fst (Report.sections out)).
Proof.
  unfold Report.printed. destruct (IssueTracker.issues self) as [|i l] eqn:E;
    [discriminate|].
  intros [= <-]. cbn [Report.sections]. rewrite by_scene_closed, !map_map. split.
  - apply map_ext. intros scene. cbn [fst snd]. f_equal.
    unfold Report.scene_lines, Report.errors, Report.warns. rewrite map_app.
    f_equal.
    + rewrite <- (filter_scene_severity scene ERROR). reflexivity.
    + rewrite <- (filter_scene_severity scene WARN). reflexivity.
  - cbn [fst]. rewrite map_id. apply first_occurrences_NoDup.
Qed.

Lemma report_sections_witness :
  let self :=
    IssueTracker.mk
      [mkIssue WARN "B" 1 (MsgOverlap "40%" "x" "y");
       mkIssue ERROR "A" 1 (MsgConstruct "E" "e");
       mkIssue ERROR "B" 2 (MsgOverlap "90%" "x" "z")] in
  let out :=
    Report.mkPrinted 3
      [("B"%string, [(ERROR, 2%nat, MsgOverlap "90%" "x" "z");
                     (WARN, 1%nat, MsgOverlap "40%" "x" "y")]);
       ("A"%string, [(ERROR, 1%nat, MsgConstruct "E" "e")])]
      (2%nat, 1%nat) in
  Report.printed self = Some out /\
  NoDup (map fst (Report.sections out)).
Proof.
  intros self out. split; [reflexivity|].
  apply (report_sections self out eq_refl).
Defined.

(** X14. [report] prints every issue of the tracker exactly once, the
    count it prints is the number of issues, and the two totals add up to
    it; it prints the single line for a clean run exactly when it returns
    true. *)
Theorem report_prints_every_issue_once (self : IssueTracker.t) :
  match Report.printed self with
  | None => IssueTracker.issues self = [] /\ IssueTracker.report self = true
  | Some out =>
      IssueTracker.report self = false /\
      Report.count out = length (IssueTracker.issues self) /\
      (fst (Report.totals out) + snd (Report.totals out) = Report.count out)%nat /\
      Report.printed_issues (Report.sections out) ≡ₚ IssueTracker.issues self
  end.
Proof.
  pose proof (totals_add_up self) as Htot.
  unfold Report.printed, IssueTracker.report.
  destruct (IssueTracker.issues self) as [|i l] eqn:E; [split; reflexivity|].
  cbn [Report.count Report.totals Report.sections fst snd].
  split; [reflexivity|]. split; [reflexivity|]. split; [exact Htot|].
  rewrite printed_issues_lines. apply printed_issues_by_scene.
Qed.

(** ** The driver *)

Section MainFacts.

Import Main.

Lemma leb_compare (a b : string) :
  String.leb a b = true <-> a = b \/ String.compare a b = Lt.
Proof.
  unfold String.leb. destruct (String.compare a b) eqn:E.
  - apply String.compare_eq_iff in E. split; auto.
  - split; auto.
  - split; [discriminate|]. intros [-> | H]; [|discriminate].
    assert (Hrefl : String.compare b b = Eq)
      by (apply OrderedTypeEx.String_as_OT.cmp_eq; reflexivity).
    congruence.
Qed.

Lemma leb_trans (a b c : string) :
  String.leb a b = true -> String.leb b c = true -> String.leb a c = true.
Proof.
  rewrite !leb_compare. intros [-> | Hab] [-> | Hbc]; auto.
  right. apply OrderedTypeEx.String_as_OT.cmp_lt.
  apply OrderedTypeEx.String_as_OT.cmp_lt in Hab, Hbc.
  eapply OrderedTypeEx.String_as_OT.lt_trans; eassumption.
Qed.

#[local] Instance name_le_trans : Transitive name_le.
Proof. intros a b c. unfold name_le. apply leb_trans. Qed.

#[local] Instance name_le_total : Total name_le.
Proof. intros a b. unfold name_le. apply String.leb_total. Qed.

Lemma StronglySorted_filter {A : Type} (R : relation A) (f : A -> bool) (l : list A) :
  StronglySorted R l -> StronglySorted R (List.filter f l).
Proof.
  induction 1 as [|x l Hl IH Hx]; simpl; [constructor|].
  destruct (f x); [|exact IH]. constructor; [exact IH|].
  apply Forall_forall. intros y Hy. apply list_elem_of_In, filter_In in Hy.
  rewrite Forall_forall in Hx. apply Hx, list_elem_of_In, Hy.
Qed.

Lemma filter_Permutation_bool {A : Type} (f : A -> bool) (l l' : list A) :
  l ≡ₚ l' -> List.filter f l ≡ₚ List.filter f l'.
Proof.
  induction 1 as [|x l l' _ IH|x y l|l1 l2 l3 _ IH1 _ IH2]; simpl.
  - reflexivity.
  - destruct (f x); [constructor|]; exact IH.
  - destruct (f x), (f y); try reflexivity. constructor.
  - etransitivity; eassumption.
Qed.


End MainFacts.

(** X15. The scene classes that [main] validates are the names of the
    module that pass the test of the loop, each as often as the module
    has it, in the order of their names; every one of them is a [Scene]
    subclass defined in the module itself under a name that starts with
    "Scene", and with [--scene NAME] every one of them is named [NAME]. *)
Theorem discovery_sorted_and_filtered (scenes_mod : Main.PyModule) (scene : option string) :
  Main.selected scenes_mod scene
    ≡ₚ List.filter (Main.accepted scenes_mod scene) (Main.module_dir scenes_mod) /\
  StronglySorted Main.name_le (Main.selected scenes_mod scene) /\
  Main.discover scenes_mod scene = map Main.attr_class (Main.selected scenes_mod scene) /\
  (forall a,
     a ∈ Main.selected scenes_mod scene ->
     Main.attr_is_type a = true /\ Main.attr_is_scene a = true /\
     Main.attr_module a = Main.module_name scenes_mod /\
     String.prefix "Scene" (Main.attr_name a) = true /\
     (forall name, scene = Some name -> Main.attr_name a = name)).
Proof.
  split; [|split; [|split; [reflexivity|]]].
  - unfold Main.selected. apply filter_Permutation_bool, merge_sort_Permutation.
  - unfold Main.selected. apply StronglySorted_filter.
    apply StronglySorted_merge_sort; [apply name_le_trans | apply name_le_total].
  - intros a Ha. unfold Main.selected in Ha.
    apply list_elem_of_In, filter_In in Ha. destruct Ha as [_ Hacc].
    unfold Main.accepted in Hacc.
    repeat (apply andb_true_iff in Hacc; destruct Hacc as [Hacc ?]).
    repeat split; try assumption.
    + apply String.eqb_eq. assumption.
    + intros name ->. apply String.eqb_eq. assumption.
Qed.


Lemma discovery_sorted_and_filtered_witness :
  map Main.attr_name (Main.selected MoreSamples.scenes_mod None)
    = ["Scene1_Title"; "Scene2_Tokenization"]%string /\
  Main.discover MoreSamples.scenes_mod (Some "Scene2_Tokenization"%string) = [Demo.covered] /\
  Main.attr_module (Main.mkAttr "Scene1_Title" true true "scenes" Demo.drifting) = "scenes"%string.
Proof.
  split; [reflexivity|]. split; [reflexivity|].
  destruct (discovery_sorted_and_filtered MoreSamples.scenes_mod None) as (_ & _ & _ & H).
  apply (H (Main.mkAttr "Scene1_Title" true true "scenes" Demo.drifting)).
  vm_compute. apply list_elem_of_here.
Defined.

(** ** Labels *)



(** ** The overlap loops *)

Lemma fold_pairs_map {A S : Type} (f : A -> A -> S -> S) (x : A) (rest : list A) (s : S) :
  fold_left (fun s (p : A * A) => f (fst p) (snd p) s) (map (pair x) rest) s
  = fold_left (fun s y => f x y s) rest s.
Proof.
  revert s. induction rest as [|y rest IH]; intros s; simpl; [reflexivity|]. apply IH.
Qed.

Lemma ordered_pairs_length {A : Type} (l : list A) :
  (2 * length (ordered_pairs l) = length l * (length l - 1))%nat.
Proof.
  induction l as [|x rest IH]; simpl; [reflexivity|].
  rewrite length_app, length_map. nia.
Qed.

Lemma ordered_pairs_lookup {A : Type} (l : list A) (x y : A) :
  (x, y) ∈ ordered_pairs l <->
  exists i j, (i < j)%nat /\ l !! i = Some x /\ l !! j = Some y.
Proof.
  induction l as [|a rest IH]; simpl.
  - rewrite elem_of_nil. split; [tauto|]. intros (i & j & _ & H & _). discriminate.
  - rewrite elem_of_app, list_elem_of_fmap, IH. split.
    + intros [(z & [= -> ->] & Hz) | (i & j & Hij & Hi & Hj)].
      * apply list_elem_of_lookup in Hz. destruct Hz as [j Hj].
        exists 0%nat, (S j). repeat split; [lia | exact Hj].
      * exists (S i), (S j). repeat split; [lia | exact Hi | exact Hj].
    + intros (i & j & Hij & Hi & Hj).
      destruct j as [|j]; [lia|]. simpl in Hj.
      destruct i as [|i]; simpl in Hi.
      * injection Hi as ->. left. exists y. split; [reflexivity|].
        apply list_elem_of_lookup. exists j. exact Hj.
      * right. exists i, j. repeat split; [lia | exact Hi | exact Hj].
Qed.

Lemma check_overlaps_ordered_pairs (entries : list (Mobject * BBox))
    (v : SceneValidator.t) :
  SceneValidator.check_overlaps entries v
  = fold_left (fun self p => SceneValidator.check_pair (fst p) (snd p) self)
              (ordered_pairs entries) v.
Proof.
  revert v. induction entries as [|e rest IH]; intros v; simpl; [reflexivity|].
  rewrite fold_left_app, (fold_pairs_map (fun a b s => SceneValidator.check_pair a b s)).
  apply IH.
Qed.

(** X18. The overlap pass applies its loop body once to every pair of
    entries at positions [i < j], row by row, which makes half of
    [n * (n - 1)] applications for [n] entries. *)
Theorem overlap_pass_visits_each_pair_once (entries : list (Mobject * BBox))
    (v : SceneValidator.t) :
  SceneValidator.check_overlaps entries v
  = fold_left (fun self p => SceneValidator.check_pair (fst p) (snd p) self)
              (ordered_pairs entries) v /\
  (2 * length (ordered_pairs entries) = length entries * (length entries - 1))%nat /\
  (forall entry_i entry_j,
     (entry_i, entry_j) ∈ ordered_pairs entries <->
     exists i j, (i < j)%nat /\ entries !! i = Some entry_i /\ entries !! j = Some entry_j).
Proof.
  split; [apply check_overlaps_ordered_pairs|].
  split; [apply ordered_pairs_length | intros; apply ordered_pairs_lookup].
Qed.

Section ScanSize.

Context {manim : Manim}.

Import SceneValidator.

Lemma fold_adds_at_most {A : Type} (f : t -> A -> t) (xs : list A) (v : t) :
  (forall v x, length (IssueTracker.issues (tracker (f v x)))
               <= S (length (IssueTracker.issues (tracker v))))%nat ->
  (length (IssueTracker.issues (tracker (fold_left f xs v)))
   <= length (IssueTracker.issues (tracker v)) + length xs)%nat.
Proof.
  intros Hf. revert v. induction xs as [|x xs IH]; intros v; simpl; [lia|].
  specialize (IH (f v x)). specialize (Hf v x). lia.
Qed.

Lemma check_oob_adds_at_most_one (v : t) (entry : Mobject * BBox) :
  (length (IssueTracker.issues (tracker (check_oob v entry)))
   <= S (length (IssueTracker.issues (tracker v))))%nat.
Proof.
  destruct entry as [mob [[[l r] b] t0]]. unfold check_oob.
  destruct (is_oob (l, r, b, t0)); [lia|]. case_bool_decide; [lia|].
  simpl. rewrite length_app. simpl. lia.
Qed.

Lemma check_pair_adds_at_most_one (entry_i entry_j : Mobject * BBox) (v : t) :
  (length (IssueTracker.issues (tracker (check_pair entry_i entry_j v)))
   <= S (length (IssueTracker.issues (tracker v))))%nat.
Proof.
  destruct entry_i as [mi bi], entry_j as [mj bj]. unfold check_pair.
  destruct (_ || _); [lia|]. destruct (_ <? _); [|lia]. case_bool_decide; [lia|].
  simpl. rewrite length_app. simpl. lia.
Qed.

End ScanSize.

(** X19. A scan of a scene with [n] boxed top-level mobjects files at
    most [n] issues in the OOB pass and at most half of [n * (n - 1)] in
    the overlap pass. *)
Theorem scan_files_at_most (manim : Manim) (v : SceneValidator.t) (scene : World)
    (final : bool) :
  let n := length (SceneValidator.with_bbox (scene_mobjects scene)) in
  (n <= length (mobjects scene))%nat /\
  (2 * length (IssueTracker.issues
                 (SceneValidator.tracker (SceneValidator._check_frame v scene final)))
   <= 2 * length (IssueTracker.issues (SceneValidator.tracker v))
      + 2 * n + n * (n - 1))%nat.
Proof.
  intros n. split.
  - unfold n, scene_mobjects. rewrite <- (length_map (store scene) (mobjects scene)).
    induction (map (store scene) (mobjects scene)) as [|m l IH]; simpl; [lia|].
    destruct (get_bbox m); simpl; lia.
  - unfold SceneValidator._check_frame. fold n.
    set (entries := SceneValidator.with_bbox (scene_mobjects scene)) in *.
    pose proof (ordered_pairs_length entries) as Hlen.
    pose proof (fold_adds_at_most SceneValidator.check_oob entries v
                  check_oob_adds_at_most_one) as H1.
    rewrite check_overlaps_ordered_pairs.
    pose proof (fold_adds_at_most
                  (fun self p => SceneValidator.check_pair (fst p) (snd p) self)
                  (ordered_pairs entries)
                  (fold_left SceneValidator.check_oob entries v)
                  (fun v0 p => check_pair_adds_at_most_one (fst p) (snd p) v0)) as H2.
    fold n in Hlen. lia.
Qed.
